(** * Verification of the comment preprocessing pipeline (preprocess.py)

    A shallow embedding of the tokenizer filter, the padder, the word
    frequency counter, the vocabulary builder and its chunked, parallel
    corpus rewrite, together with the properties stated about them.

    Conventions of the embedding:
    - a Python [str] is a [string], each character standing for one code
      point below 256 (ASCII and Latin-1); [s.split(' ')] is [split_space]
      and [' '.join(l)] is [join_space];
    - a Python [int] is a [Z]; [//] is [Z.div] (both round to the floor);
    - an insertion-ordered [dict] whose iteration order is observed (the
      word count table) is an association list; the vocabulary, of which
      only lookups are observed, is a [gmap];
    - a csv file is the list of its data lines, each with the text of its
      [comment_text] cell; what pandas makes of that text when it reads the
      file (a string, or NaN for an empty cell) is part of the model;
    - a DataFrame whose [comment_text] cells are all strings is the list of
      its rows, each carrying its index label; the other cells of a row are
      carried along as they were read, which is what pandas writes for a
      column of text or of integers in their shortest form, but not in
      general (007 is read as the number 7): the properties of files below
      speak of the [comment_text] column;
    - a path names a file or a directory as the program writes it: two
      spellings of one path are not identified, but for a trailing slash;
    - file system effects are threaded through a state and error monad. *)

From Stdlib Require Import ZArith Ascii String Lia.
From stdpp Require Import base list strings gmap pretty.
From Equations Require Import Equations.

#[local] Open Scope string_scope.
#[local] Open Scope list_scope.
#[local] Open Scope Z_scope.

(** ** Python strings: [split(' ')] and [' '.join] *)

Module PyStr.

(** [s.split(' ')]: the fields between single spaces; never empty. *)
Fixpoint split_space (s : string) : list string :=
  match s with
  | EmptyString => [EmptyString]
  | String c s' =>
      if Ascii.eqb c " "%char then EmptyString :: split_space s'
      else match split_space s' with
           | w :: ws => String c w :: ws
           | [] => [String c EmptyString]
           end
  end.

(** [' '.join(l)]. *)
Fixpoint join_space (l : list string) : string :=
  match l with
  | [] => EmptyString
  | [w] => w
  | w :: ws => w +:+ String " "%char (join_space ws)
  end.

(** Whether a string contains the separator. *)
Fixpoint has_space (s : string) : bool :=
  match s with
  | EmptyString => false
  | String c s' => Ascii.eqb c " "%char || has_space s'
  end.

(** [s.rstrip(c)]: the string without its trailing characters [c]. *)
Fixpoint rstrip (c : ascii) (s : string) : string :=
  match s with
  | EmptyString => EmptyString
  | String a s' =>
      match rstrip c s' with
      | EmptyString => if Ascii.eqb a c then EmptyString else String a EmptyString
      | r => String a r
      end
  end.

(** [l[:stop]] for a Python list, negative [stop] counting from the end. *)
Definition slice_to {A} (l : list A) (stop : Z) : list A :=
  if stop <? 0 then take (Z.to_nat (Z.of_nat (length l) + stop)) l
  else take (Z.to_nat stop) l.

(** [l[start:stop]] with Python's clamping of both bounds. *)
Definition slice {A} (l : list A) (start stop : Z) : list A :=
  let len := Z.of_nat (length l) in
  let norm i := if i <? 0 then Z.max 0 (len + i) else Z.min i len in
  let lo := norm start in
  let hi := norm stop in
  take (Z.to_nat (hi - lo)) (drop (Z.to_nat lo) l).

End PyStr.

Import PyStr.

(** ** The padder (add_padding.pad) *)

Definition pad (comment : string) (pad_to : Z) (padword : string) : string :=
  let comment_list := split_space comment in
  let short := pad_to - Z.of_nat (length comment_list) in
  let comment_list :=
    if 0 <? short then comment_list ++ replicate (Z.to_nat short) padword
    else slice_to comment_list pad_to in
  join_space comment_list.

(** The default pad token of [pad], [count_occurrences] and [build_vocab]. *)
Definition default_padword : string := "<pad>".

(** The default unknown token of [build_vocab]. *)
Definition default_unknown : string := "<unk>".

(** ** The tokenizer filter (tokenize_comments) *)

Module Tokenizer.

(** The double quote character, written by its code. *)
Definition dquote : ascii := ascii_of_nat 34.

(** [string.punctuation]. *)
Definition string_punctuation : string :=
  "!" +:+ String dquote "#$%&'()*+,-./:;<=>?@[\]^_`{|}~".

(** [list(s)]: the one-character strings of [s]. *)
Fixpoint list_of_string (s : string) : list string :=
  match s with
  | EmptyString => []
  | String c s' => String c EmptyString :: list_of_string s'
  end.

(** [punctuations = list(string.punctuation); punctuations += ['``', "''"]]. *)
Definition punctuations : list string :=
  list_of_string string_punctuation ++ ["``"; "''"].

(** The characters [str.lower] changes, among the code points below 256:
    the letters A to Z and the Latin-1 capitals from 192 to 222, but for the
    multiplication sign (215). *)
Definition is_upper_char (c : ascii) : bool :=
  let n := nat_of_ascii c in
  ((65 <=? n)%nat && (n <=? 90)%nat)
  || ((192 <=? n)%nat && (n <=? 222)%nat && negb (n =? 215)%nat).

(** [c.lower()] on one character: the lower-case letter is 32 code points
    further. *)
Definition lower_char (c : ascii) : ascii :=
  if is_upper_char c then ascii_of_nat (nat_of_ascii c + 32) else c.

(** [word.lower()]. *)
Fixpoint lower (word : string) : string :=
  match word with
  | EmptyString => EmptyString
  | String c word' => String (lower_char c) (lower word')
  end.

(** No character of the word is an upper-case letter: [word.lower()] is
    [word]. *)
Fixpoint is_lower_case (word : string) : bool :=
  match word with
  | EmptyString => true
  | String c word' => negb (is_upper_char c) && is_lower_case word'
  end.

Section WithTokenizer.

(** [nltk.word_tokenize], a library function outside the repository. *)
Variable word_tokenize : string -> list string.

(** The token list kept for one row (line 38 and 39 of the source). *)
Definition filter_words (lower_case : bool) (comment : string) : list string :=
  let word_list := word_tokenize comment in
  (fun word => if negb lower_case then word else lower word)
    <$> filter (fun word => word ∉ punctuations) word_list.

(** The new [comment_text] of one row (line 40). *)
Definition tokenize_comment (lower_case : bool) (comment : string) : string :=
  join_space (filter_words lower_case comment).

End WithTokenizer.

End Tokenizer.

(** ** Data frames and csv files *)

(** One row of a DataFrame whose [comment_text] cell is a string: its index
    label, that string, and the cells of the other columns, which the code
    never looks at. *)
Record Row := mkRow {
  row_label : nat;
  comment_text : string;
  other_columns : list string
}.

Definition DataFrame := list Row.

(** One data line of a csv file written with [index=False]: the text of
    its [comment_text] cell and its other cells. *)
Definition CsvRecord : Type := string * list string.

(** ** What [read_csv] makes of the text of a [comment_text] cell *)

Module Cells.

(** The value of a cell after [pd.read_csv] with its default arguments. *)
Inductive cell :=
| Str (s : string)       (* a Python str, the text of the cell *)
| NaN                    (* a missing value, the float nan *)
| Inferred (s : string). (* a value pandas chooses from the whole column
                            (a number, a boolean or a str) or that depends
                            on its version: not modelled further *)

(** The texts every version of pandas reads as a missing value. *)
Definition na_values : list string :=
  [""; "#N/A"; "#N/A N/A"; "#NA"; "-1.#IND"; "-1.#QNAN"; "-NaN"; "-nan";
   "1.#IND"; "1.#QNAN"; "N/A"; "NA"; "NULL"; "NaN"; "n/a"; "nan"; "null"].

(** A first character with which a number may begin: white space, a
    control character, a digit, a sign or the decimal point. *)
Definition numeric_start (c : ascii) : bool :=
  let n := nat_of_ascii c in
  (n <=? 32)%nat || ((48 <=? n)%nat && (n <=? 57)%nat)
  || bool_decide (c ∈ ["+"; "-"; "."]%char).

(** No character of the text is a control character. *)
Fixpoint no_control (s : string) : bool :=
  match s with
  | EmptyString => true
  | String c s' =>
      let n := nat_of_ascii c in
      negb ((n <? 32)%nat || (n =? 127)%nat) && no_control s'
  end.

(** The words that some version of pandas reads, in some spelling, as a
    missing value, a boolean or a number. *)
Definition reserved_words : list string :=
  ["<na>"; "none"; "null"; "nan"; "na"; "n/a"; "true"; "false"; "inf";
   "infinity"].

(** A text that is read as the str with the same characters, whatever else
    is in its column: it is no missing value, does not begin like a number,
    has no control character and is no reserved word. The test is on the
    safe side: [Inferred] is the answer for every other text it refuses. *)
Definition plain_text (s : string) : bool :=
  negb (bool_decide (s ∈ na_values))
  && match s with
     | EmptyString => false
     | String c _ =>
         negb (numeric_start c) && no_control s
         && negb (bool_decide
                    (Tokenizer.lower (rstrip " " s) ∈ reserved_words))
     end.

Definition read_cell (s : string) : cell :=
  if bool_decide (s ∈ na_values) then NaN
  else if plain_text s then Str s
  else Inferred s.

End Cells.

Import Cells.

(** One row of a DataFrame as [read_csv] yields it. *)
Record RawRow := mkRaw {
  raw_label : nat;
  raw_cell : cell;
  raw_other : list string
}.

Definition RawFrame := list RawRow.

Module Frame.

(** [df.at[row, 'comment_text'] = value]: assignment by label. *)
Definition at_set (row : nat) (value : string) (df : DataFrame) : DataFrame :=
  (fun r => if bool_decide (row_label r = row)
            then mkRow (row_label r) value (other_columns r) else r) <$> df.

(** [df.iloc[start:stop]]: a positional slice of the rows. *)
Definition iloc {A} (df : list A) (start stop : Z) : list A :=
  slice df start stop.

(** [pd.concat(results)]. *)
Definition concat (results : list DataFrame) : DataFrame := mjoin results.

(** The rows of a csv file all of whose [comment_text] cells are read as
    strings, labelled from [start] by a RangeIndex. *)
Fixpoint label_from (start : nat) (file : list CsvRecord) : DataFrame :=
  match file with
  | [] => []
  | r :: file' => mkRow start r.1 r.2 :: label_from (S start) file'
  end.

(** The rows of a csv file as they are read, labelled from [start] by a
    RangeIndex. *)
Fixpoint read_from (start : nat) (file : list CsvRecord) : RawFrame :=
  match file with
  | [] => []
  | r :: file' => mkRaw start (read_cell r.1) r.2 :: read_from (S start) file'
  end.

(** What [to_csv(..., index=False)] writes for a frame: its rows without
    their labels, the [comment_text] strings as they are. *)
Definition to_records (df : DataFrame) : list CsvRecord :=
  (fun r => (comment_text r, other_columns r)) <$> df.

(** A list cut into pieces of [n] elements; the last one may be shorter.
    The reader rejects [n < 1], so the clause for 0 is never used. *)
Equations? chunks {A} (n : nat) (l : list A) : list (list A)
  by wf (length l) lt :=
  chunks n [] := [];
  chunks 0 (x :: l) := [];
  chunks (S n) (x :: l) := (x :: take n l) :: chunks (S n) (drop n l).
Proof. rewrite length_drop. simpl. lia. Qed.

(** The chunks an iterator over [read_csv(..., chunksize=n)] yields: for a
    file without a data line, one chunk without rows. *)
Definition reader_chunks {A} (n : nat) (l : list A) : list (list A) :=
  match l with
  | [] => [[]]
  | _ :: _ => chunks n l
  end.

End Frame.

(** ** Python dictionaries in insertion order *)

Definition dict := list (string * Z).

Module Dict.

(** [d.get(k)]. *)
Fixpoint get (d : dict) (k : string) : option Z :=
  match d with
  | [] => None
  | (k', v) :: d' => if decide (k' = k) then Some v else get d' k
  end.

(** [d[k] += 1] on a [defaultdict(lambda: 0)]: an unseen key is created at 0
    at the end of the dictionary and then incremented. *)
Fixpoint incr (d : dict) (k : string) : dict :=
  match d with
  | [] => [(k, 0 + 1)]
  | (k', v) :: d' =>
      if decide (k' = k) then (k', v + 1) :: d' else (k', v) :: incr d' k
  end.

(** [word_count != padword], a dictionary compared with a string: objects of
    unrelated types are never equal. *)
Definition ne_str (d : dict) (s : string) : bool := true.

(** [enumerate(l, start)]. *)
Fixpoint enumerate_from {A} (start : Z) (l : list A) : list (Z * A) :=
  match l with
  | [] => []
  | x :: l' => (start, x) :: enumerate_from (start + 1) l'
  end.

Definition enumerate {A} (l : list A) : list (Z * A) := enumerate_from 0 l.

End Dict.

(** ** The word frequency counter (count_occurrences), on rows of strings *)

(** The body of the loop over the words of one row (lines 120 to 122). *)
Definition count_word (padword : string) (word_count : dict) (word : string)
  : dict :=
  if Dict.ne_str word_count padword then Dict.incr word_count word
  else word_count.

(** The loop over the rows of one chunk (lines 118 to 122). *)
Definition count_chunk (padword : string) (word_count : dict)
  (chunk : DataFrame) : dict :=
  foldl (fun word_count entry =>
           foldl (count_word padword) word_count
                 (split_space (comment_text entry)))
        word_count chunk.

(** The loop over the chunks (lines 115 to 124). *)
Definition count_chunks (padword : string) (df_chunks : list DataFrame)
  : dict :=
  foldl (count_chunk padword) [] df_chunks.

(** ** The vocabulary builder (build_vocab), lines 153 to 163 *)

(** The dictionary literal [{unknown: -2, padword: -1}]: on equal keys the
    later entry wins. *)
Definition initial_vocab (unknown padword : string) : gmap string Z :=
  <[padword := -1]> (<[unknown := -2]> ∅).

(** One iteration of the loop of lines 156 to 160. *)
Definition vocab_step (threshold uncommon_limit : Z)
  (acc : gmap string Z * list string) (item : Z * (string * Z))
  : gmap string Z * list string :=
  let '(vocab, uncommon) := acc in
  let '(index, (word, occurrences)) := item in
  if threshold <? occurrences then (<[word := index]> vocab, uncommon)
  else if Z.of_nat (length uncommon) <? uncommon_limit
       then (vocab, uncommon ++ [word])
       else (vocab, uncommon).

(** The vocabulary and the uncommon word list after the loop. *)
Definition vocab_loop (word_count : dict) (threshold uncommon_limit : Z)
  (unknown padword : string) : gmap string Z * list string :=
  foldl (vocab_step threshold uncommon_limit)
        (initial_vocab unknown padword, [])
        (Dict.enumerate word_count).

(** [{id_: word for word, id_ in vocab.items()}]. *)
Definition reverse (vocab : gmap string Z) : gmap Z string :=
  foldl (fun rev item => <[item.2 := item.1]> rev) ∅ (map_to_list vocab).

(** ** The corpus rewrite: _find_replace, on rows of strings *)

(** The new [comment_text] of one row (lines 202 to 204). *)
Definition replace_words (uncommon : list string) (unknown : string)
  (comment : string) : string :=
  join_space ((fun word => if bool_decide (word ∉ uncommon) then word
                           else unknown) <$> split_space comment).

(** [_find_replace]: the rows are visited as [iterrows] yields them and the
    frame is updated by label. *)
Definition _find_replace (df : DataFrame) (uncommon : list string)
  (unknown : string) : DataFrame :=
  foldl (fun df entry =>
           Frame.at_set (row_label entry)
             (replace_words uncommon unknown (comment_text entry)) df)
        df df.

(** [range(n)]. *)
Definition range (n : Z) : list Z := Z.of_nat <$> seq 0 (Z.to_nat n).

(** ** Paths *)

Module Path.

(** The directories above a path: its proper prefixes that stop before a
    separator, from the outermost one on. *)
Definition parents (p : string) : list string :=
  omap (fun i =>
          match String.get (i - 1) p, String.get i p with
          | Some a, Some b =>
              if Ascii.eqb b "/" && negb (Ascii.eqb a "/")
              then Some (String.substring 0 i p) else None
          | _, _ => None
          end)
       (seq 1 (String.length p - 1)).

(** A path without its trailing separators; the root stays. *)
Definition trim_slash (p : string) : string :=
  match rstrip "/" p with
  | EmptyString => if String.eqb p "" then "" else "/"
  | q => q
  end.

(** A name that stays in the directory it is joined to: it is not empty,
    has no separator, and is neither [.] nor [..]. *)
Definition plain_name (s : string) : bool :=
  negb (String.eqb s "") && negb (String.eqb s ".") && negb (String.eqb s "..")
  && forallb (fun c => negb (Ascii.eqb c "/")) (list_ascii_of_string s).

End Path.

(** ** The file system, the console and exceptions *)

Module IO.

Inductive exn :=
| ValueError (msg : string)
| TypeError
| FileNotFoundError
| AttributeError
| NotADirectoryError
| NotModelled. (* no exception of Python: the run has reached a cell that
                  is [Inferred], where the model says nothing *)

(** The part of the machine the code touches: the directories, the csv
    files (each as its data lines, the header line being implicit), what
    was printed, and the number of processors. The working directory and
    the root are always there and are not listed in [dirs]. *)
Record World := mkWorld {
  dirs : gset string;
  files : gmap string (list CsvRecord);
  stdout : list string;
  cpus : Z
}.

(** A computation either raises or returns, and leaves a world behind. *)
Definition M (A : Type) : Type := World -> (exn + A) * World.

#[export] Instance M_ret : MRet M := fun A (a : A) w => (inr a, w).

#[export] Instance M_bind : MBind M := fun A B (f : A -> M B) (m : M A) w =>
  match m w with
  | (inl e, w') => (inl e, w')
  | (inr a, w') => f a w'
  end.

#[export] Instance M_fmap : FMap M := fun A B (f : A -> B) (m : M A) w =>
  match m w with
  | (inl e, w') => (inl e, w')
  | (inr a, w') => (inr (f a), w')
  end.

Definition raise {A} (e : exn) : M A := fun w => (inl e, w).

(** The outcome of a computation that leaves the world alone. *)
Definition from_sum {A} (r : exn + A) : M A := fun w => (r, w).

(** A frame as the code can use it: the first cell that is not a str ends
    the loop over the rows with the error [on_nan] of the method called on
    it ([split] on a float: AttributeError). What the loop did to the rows
    before it was done to the frame in memory, and is lost. *)
Fixpoint as_strings (on_nan : exn) (rows : RawFrame) : exn + DataFrame :=
  match rows with
  | [] => inr []
  | r :: rows' =>
      match raw_cell r with
      | Str s =>
          match as_strings on_nan rows' with
          | inr df => inr (mkRow (raw_label r) s (raw_other r) :: df)
          | inl e => inl e
          end
      | NaN => inl on_nan
      | Inferred _ => inl NotModelled
      end
  end.

(** [[f(x) for x in l]] where [f] may raise: the first error ends it. *)
Fixpoint map_until {A B} (f : A -> exn + B) (l : list A) : exn + list B :=
  match l with
  | [] => inr []
  | x :: l' =>
      match f x with
      | inr y =>
          match map_until f l' with
          | inr ys => inr (y :: ys)
          | inl e => inl e
          end
      | inl e => inl e
      end
  end.

(** Python's truth value of an optional string argument: [None] and the
    empty string are false. *)
Definition truthy (o : option string) : bool :=
  match o with
  | Some s => negb (String.eqb s "")
  | None => false
  end.

Definition ends_with_sep (a : string) : bool :=
  match String.get (String.length a - 1) a with
  | Some c => Ascii.eqb c "/"
  | None => false
  end.

(** [posixpath.join(a, b)] on two strings. *)
Definition posix_join (a b : string) : string :=
  if String.prefix "/" b then b
  else if String.eqb a "" || ends_with_sep a then a +:+ b
  else a +:+ "/" +:+ b.

(** [os.path.join(a, b)]: [None] is not a path. *)
Definition os_path_join (a b : option string) : M string :=
  match a, b with
  | Some a, Some b => mret (posix_join a b)
  | _, _ => raise TypeError
  end.

(** A directory of this name exists. *)
Definition is_dir (w : World) (p : string) : bool :=
  bool_decide (p ∈ ["/"; "."; ".."]) || bool_decide (p ∈ dirs w).

(** [os.path.exists(p)]. *)
Definition os_path_exists (p : option string) : M bool :=
  match p with
  | Some p => fun w =>
      (inr (is_dir w (Path.trim_slash p)
            || bool_decide (is_Some (files w !! p))), w)
  | None => raise TypeError
  end.

(** [os.makedirs(p)], reached only for a path that does not exist: the
    directories above it that are missing are made as well. *)
Definition os_makedirs (p : option string) : M unit :=
  match p with
  | Some p => fun w =>
      let p := Path.trim_slash p in
      if String.eqb p "" then (inl FileNotFoundError, w)
      else if existsb (fun q => bool_decide (is_Some (files w !! q)))
                      (Path.parents p)
      then (inl NotADirectoryError, w)
      else (inr (), mkWorld ({[p]} ∪ list_to_set (Path.parents p) ∪ dirs w)
                            (files w) (stdout w) (cpus w))
  | None => raise TypeError
  end.

(** [pd.read_csv(path, chunksize=chunk_size)], as the list of the chunks its
    iterator yields. The chunk size is validated before the file is
    opened. The chunks are those of the file as it is when it is opened: a
    caller that overwrites the file while it is still being read is not
    covered, nor is a path that names a directory. *)
Definition read_csv (path : string) (chunk_size : Z) : M (list RawFrame) :=
  fun w =>
    if chunk_size <? 1
    then (inl (ValueError "'chunksize' must be an integer >=1"), w)
    else match files w !! path with
         | Some file =>
             (inr (Frame.reader_chunks (Z.to_nat chunk_size)
                     (Frame.read_from 0 file)), w)
         | None => (inl FileNotFoundError, w)
         end.

(** [chunk.to_csv(path, index=False, mode=..., header=...)]: mode [w]
    (here [append = false]) replaces the file, mode [a] extends it. The
    directory of the path is taken to exist: the callers make it first, or
    write beside the file they read. *)
Definition to_csv (df : DataFrame) (path : string) (append : bool) : M unit :=
  fun w =>
    let old := if append then default [] (files w !! path) else [] in
    (inr (), mkWorld (dirs w) (<[path := old ++ Frame.to_records df]> (files w))
                     (stdout w) (cpus w)).

Definition print (msg : string) : M unit :=
  fun w => (inr (), mkWorld (dirs w) (files w) (stdout w ++ [msg]) (cpus w)).

(** [multiprocessing.cpu_count()]. *)
Definition cpu_count : M Z := fun w => (inr (cpus w), w).

(** [Pool(processes)] refuses fewer than one worker. *)
Definition Pool (processes : Z) : M unit :=
  if processes <? 1
  then raise (ValueError "Number of processes must be at least 1")
  else mret ().

(** A [for] loop whose body may raise. *)
Fixpoint for_each {A} (l : list A) (body : A -> M unit) : M unit :=
  match l with
  | [] => mret ()
  | x :: l' => body x ;; for_each l' body
  end.

End IO.

Import IO.

(** ** count_occurrences and build_vocab as the source has them *)

(** Nothing is written while the rows are counted, so the first cell that
    is not a str ends the call with the error of [split] and no other
    trace. *)
Definition count_occurrences (file_name : string) (chunk_size : Z)
  (padword : string) : M dict :=
  df_chunks ← read_csv file_name chunk_size;
  df_chunks ← from_sum (map_until (as_strings AttributeError) df_chunks);
  mret (count_chunks padword df_chunks).

(** The call of [_find_replace] on one slice, in a worker: [split] is the
    first use of each cell. *)
Definition find_replace_worker (split : RawFrame) (uncommon : list string)
  (unknown : string) : exn + DataFrame :=
  match as_strings AttributeError split with
  | inr df => inr (_find_replace df uncommon unknown)
  | inl e => inl e
  end.

(** Lines 180 to 183: the chunk is cut into [processes] slices of
    [chunk_size // processes] rows, each slice goes through [_find_replace]
    (in a worker, on its own copy), and the results are concatenated in the
    order of submission; an error in a worker is raised again by
    [starmap]. *)
Definition rewrite_chunk (processes chunk_size : Z) (uncommon : list string)
  (unknown : string) (chunk : RawFrame) : exn + DataFrame :=
  let step := chunk_size / processes in
  let chunk_splits :=
    (fun i => Frame.iloc chunk (i * step) (step * (i + 1))) <$> range processes in
  match map_until (fun split => find_replace_worker split uncommon unknown)
                  chunk_splits with
  | inr results => inr (Frame.concat results)
  | inl e => inl e
  end.

(** The body of the loop over the chunks of the rewrite (lines 177 to
    191). *)
Definition rewrite_body (processes chunk_size : Z) (uncommon : list string)
  (unknown : string) (new_dir file_name : option string)
  (item : Z * RawFrame) : M unit :=
  let '(index, chunk) := item in
  print ("Processing chunk " +:+ pretty index +:+ "...") ;;
  Pool processes ;;
  chunk ← from_sum (rewrite_chunk processes chunk_size uncommon unknown chunk) ;
  path ← os_path_join new_dir file_name ;
  to_csv chunk path (negb (index =? 0)).

Definition build_vocab (word_count : dict) (threshold : Z)
  (padword unknown : string) (modify : bool)
  (file_dir file_name new_dir : option string)
  (chunk_size uncommon_limit : Z) : M (gmap string Z * gmap Z string) :=
  let '(vocab, uncommon) :=
    vocab_loop word_count threshold uncommon_limit unknown padword in
  let reverse_vocab := reverse vocab in
  (if modify then
     (if negb (truthy file_dir) && negb (truthy file_name)
      then raise (ValueError "Arguments file_dir and file_name are required.")
      else mret ()) ;;
     new_dir ← (if truthy new_dir
                then Some <$> os_path_join file_dir new_dir
                else mret file_dir) ;
     present ← os_path_exists new_dir ;
     (if negb present then os_makedirs new_dir else mret ()) ;;
     source ← os_path_join file_dir file_name ;
     df_chunks ← read_csv source chunk_size ;
     processes ← cpu_count ;
     for_each (Dict.enumerate df_chunks)
       (rewrite_body processes chunk_size uncommon unknown new_dir file_name) ;;
     print "Complete"
   else mret ()) ;;
  mret (vocab, reverse_vocab).

(** ** Notions used to state the properties *)

(** The token list [pad] joins, as a function of the tokens of the comment. *)
Definition padded_tokens (toks : list string) (L : Z) (padword : string)
  : list string :=
  if Z.of_nat (length toks) <? L
  then toks ++ replicate (Z.to_nat (L - Z.of_nat (length toks))) padword
  else take (Z.to_nat L) toks.

(** Every [comment_text] cell of the file is read as the str it shows. *)
Definition all_plain (file : list CsvRecord) : Prop :=
  Forall (fun r => plain_text r.1 = true) file.

(** A row of strings as [read_csv] yields it. *)
Definition raw_row (r : Row) : RawRow :=
  mkRaw (row_label r) (Str (comment_text r)) (other_columns r).

(** All the words of a corpus, row after row, as [split(' ')] gives them. *)
Definition corpus_words (file : list CsvRecord) : list string :=
  file ≫= (fun r => split_space r.1).

(** How many times a word occurs in a list of words. *)
Definition occurrences (word : string) (words : list string) : Z :=
  Z.of_nat (length (filter (fun w => w = word) words)).

(** The loop of [build_vocab], started at any index and any state. *)
Definition vocab_run (threshold uncommon_limit : Z) (start : Z)
  (vocab : gmap string Z) (uncommon : list string) (items : dict)
  : gmap string Z * list string :=
  foldl (vocab_step threshold uncommon_limit) (vocab, uncommon)
        (Dict.enumerate_from start items).

(** A machine with nothing on disk and one processor. *)
Definition quiet_world : World := mkWorld ∅ ∅ [] 1.

(** A machine holding one csv file, in its directory. *)
Definition world_with (file_name : string) (file : list CsvRecord) (cpus : Z)
  : World :=
  mkWorld (list_to_set (Path.parents file_name)) {[file_name := file]} [] cpus.

(** A small tokenized corpus, one comment of which is padded. *)
Definition sample_file : list CsvRecord :=
  [("you 're great <pad>", ["0"]); ("so what", ["1"]); ("idiot you", ["1"])].

(** A corpus one comment of which the tokenizer left without a token. *)
Definition emptied_file : list CsvRecord :=
  [("you 're great", ["0"]); ("", ["1"]); ("idiot you", ["1"])].

(** A corpus with a comment that is empty from the start. *)
Definition blank_file : list CsvRecord :=
  [("idiot", ["1"]); ("", ["0"])].

(** A corpus with a comment that has two spaces in a row. *)
Definition spaced_file : list CsvRecord :=
  [("you  idiot", ["1"]); ("so  what", ["0"])].

(** A character is a lower-case letter that [str.lower] yields for another
    character. *)
Definition is_lower_char (c : ascii) : bool :=
  let n := nat_of_ascii c in
  ((97 <=? n)%nat && (n <=? 122)%nat)
  || ((224 <=? n)%nat && (n <=? 254)%nat && negb (n =? 247)%nat).

(** Some character of the word is a lower-case letter. *)
Fixpoint has_lower_char (word : string) : bool :=
  match word with
  | EmptyString => false
  | String c word' => is_lower_char c || has_lower_char word'
  end.

(** A tokenizer that cuts at spaces and drops empty fields; it stands for
    the library tokenizer where an instance is needed. *)
Definition whitespace_tokenize (comment : string) : list string :=
  filter (fun word => word <> "") (split_space comment).

(** One row after the rewrite: only its [comment_text] changes. *)
Definition replace_row (uncommon : list string) (unknown : string) (r : Row)
  : Row :=
  mkRow (row_label r) (replace_words uncommon unknown (comment_text r))
        (other_columns r).

(** The word counts of [sample_file]. *)
Definition sample_counts : dict :=
  [("you", 2); ("'re", 1); ("great", 1); ("<pad>", 1); ("so", 1); ("what", 1);
   ("idiot", 1)].

(** One data line after the rewrite. *)
Definition replace_record (uncommon : list string) (unknown : string)
  (r : CsvRecord) : CsvRecord :=
  (replace_words uncommon unknown r.1, r.2).

(** ** tokenize_comments as the source has it *)

(** The loop over the rows of one chunk of strings (lines 37 to 40): the
    rows are visited as [iterrows] yields them and the chunk is updated by
    label. *)
Definition tokenize_chunk (word_tokenize : string -> list string)
  (lower_case : bool) (chunk : DataFrame) : DataFrame :=
  foldl (fun chunk entry =>
           Frame.at_set (row_label entry)
             (Tokenizer.tokenize_comment word_tokenize lower_case
                (comment_text entry)) chunk)
        chunk chunk.

(** The body of the loop over the chunks (lines 36 to 49). The tokenizer
    is the first use of each cell: it raises TypeError on one that is not a
    str. *)
Definition tokenize_body (word_tokenize : string -> list string)
  (lower_case : bool) (new_dir file_name : string) (item : Z * RawFrame)
  : M unit :=
  let '(index, chunk) := item in
  print ("Tokenizing chunk " +:+ pretty index +:+ "...") ;;
  chunk ← from_sum (as_strings TypeError chunk) ;
  let chunk := tokenize_chunk word_tokenize lower_case chunk in
  path ← os_path_join (Some new_dir) (Some file_name) ;
  to_csv chunk path (negb (index =? 0)).

Definition tokenize_comments (word_tokenize : string -> list string)
  (file_dir file_name : string) (chunk_size : Z) (new_dir : string)
  (lower_case : bool) : M unit :=
  source ← os_path_join (Some file_dir) (Some file_name) ;
  df_chunk ← read_csv source chunk_size ;
  new_dir ← os_path_join (Some file_dir) (Some new_dir) ;
  present ← os_path_exists (Some new_dir) ;
  (if negb present then os_makedirs (Some new_dir) else mret ()) ;;
  for_each (Dict.enumerate df_chunk)
    (tokenize_body word_tokenize lower_case new_dir file_name) ;;
  print "Tokenization complete.".

(** ** add_padding as the source has it *)

Module Padding.

(** What [add_padding] can raise: what the operations above raise, and the
    error of [os.mkdir] on a path that exists. *)
Inductive failure :=
| Raised (e : exn)
| FileExistsError.

(** [pd.read_csv(path)]: the whole file as one frame. *)
Definition read_csv_all (path : string) : M RawFrame :=
  fun w =>
    match files w !! path with
    | Some file => (inr (Frame.read_from 0 file), w)
    | None => (inl FileNotFoundError, w)
    end.

(** [df['comment_text'].apply(f)] assigned back to the column, on a frame
    of strings. *)
Definition apply_comment_text (f : string -> string) (df : DataFrame)
  : DataFrame :=
  (fun r => mkRow (row_label r) (f (comment_text r)) (other_columns r)) <$> df.

(** [os.mkdir(path)]: refuses a path that exists, and one whose parent
    directory does not. *)
Definition os_mkdir (path : string) (w : World) : (failure + unit) * World :=
  let p := Path.trim_slash path in
  if is_dir w p || bool_decide (is_Some (files w !! path))
  then (inl FileExistsError, w)
  else if String.eqb p "" then (inl (Raised FileNotFoundError), w)
  else match last (Path.parents p) with
       | Some parent =>
           if is_dir w parent
           then (inr (), mkWorld ({[p]} ∪ dirs w) (files w) (stdout w) (cpus w))
           else if bool_decide (is_Some (files w !! parent))
           then (inl (Raised NotADirectoryError), w)
           else (inl (Raised FileNotFoundError), w)
       | None =>
           (inr (), mkWorld ({[p]} ∪ dirs w) (files w) (stdout w) (cpus w))
       end.

(** [df.to_csv(save_to, index=False)]. *)
Definition save (df : DataFrame) (save_to : string) (w : World)
  : (failure + unit) * World :=
  match to_csv df save_to false w with
  | (inl e, w') => (inl (Raised e), w')
  | (inr _, w') => (inr (), w')
  end.

(** [pad] is applied to each cell in turn: [split] raises AttributeError on
    the first one that is not a str, before anything is written. *)
Definition add_padding (file_dir file_name : string) (new_file : bool)
  (new_dir : string) (max_length : Z) (w : World)
  : (failure + unit) * World :=
  match read_csv_all (posix_join file_dir file_name) w with
  | (inl e, w1) => (inl (Raised e), w1)
  | (inr df, w1) =>
      match as_strings AttributeError df with
      | inl e => (inl (Raised e), w1)
      | inr df =>
          let df :=
            apply_comment_text
              (fun comment => pad comment max_length default_padword) df in
          if new_file then
            match os_mkdir (posix_join file_dir new_dir) w1 with
            | (inl e, w2) => (inl e, w2)
            | (inr _, w2) =>
                save df (posix_join (posix_join file_dir new_dir) file_name) w2
            end
          else save df (posix_join file_dir file_name) w1
      end
  end.

End Padding.

(** ** Further notions used to state properties *)

(** One data line after a function is applied to its [comment_text]. *)
Definition map_record (f : string -> string) (r : CsvRecord) : CsvRecord :=
  (f r.1, r.2).

(** The word a word becomes in the rewrite. *)
Definition replace_word (uncommon : list string) (unknown : string)
  (word : string) : string :=
  if bool_decide (word ∉ uncommon) then word else unknown.

(** The words of a table whose count does not exceed the threshold, in the
    order of the table. *)
Definition rare_words (threshold : Z) (word_count : dict) : list string :=
  (filter (fun item => item.2 <= threshold) word_count).*1.

(** The lines the rewrite writes for the chunks of a file: of each chunk,
    the first [kept] lines, rewritten. *)
Definition kept_records (kept : nat) (uncommon : list string)
  (unknown : string) (record_chunks : list (list CsvRecord))
  : list CsvRecord :=
  record_chunks ≫= (fun chunk =>
    replace_record uncommon unknown <$> take kept chunk).

(** A second small corpus: raw comments, before the tokenizer. *)
Definition raw_file : list CsvRecord :=
  [("You 're great !", ["0"]); ("IDIOT", ["1"]); ("so , what ?", ["0"])].

(** * Properties *)

(** ** Facts about splitting and joining *)

Section SplitJoin.

Lemma split_space_length_pos (s : string) : (0 < length (split_space s))%nat.
Proof.
  induction s as [|c s IH]; simpl; [lia|].
  destruct (Ascii.eqb c " "); simpl; [lia|].
  destruct (split_space s); simpl; lia.
Qed.

Lemma split_space_cons (s : string) :
  exists w ws, split_space s = w :: ws.
Proof.
  pose proof (split_space_length_pos s) as H.
  destruct (split_space s) as [|w ws]; simpl in H; [lia|eauto].
Qed.

Lemma split_space_no_space (s : string) :
  Forall (fun w => has_space w = false) (split_space s).
Proof.
  induction s as [|c s IH]; simpl.
  - repeat constructor.
  - destruct (Ascii.eqb c " ") eqn:E.
    + constructor; [reflexivity|exact IH].
    + destruct (split_space s) as [|w ws].
      * repeat constructor. simpl. rewrite E. reflexivity.
      * inversion IH; subst. constructor; [|assumption].
        simpl. rewrite E. assumption.
Qed.

Lemma split_space_word (w : string) :
  has_space w = false -> split_space w = [w].
Proof.
  induction w as [|c w IH]; simpl; [reflexivity|].
  destruct (Ascii.eqb c " "); simpl; [discriminate|].
  intros H. rewrite (IH H). reflexivity.
Qed.

Lemma split_space_app (w s : string) :
  has_space w = false ->
  split_space (w +:+ String " " s) = w :: split_space s.
Proof.
  induction w as [|c w IH]; simpl; [reflexivity|].
  destruct (Ascii.eqb c " "); simpl; [discriminate|].
  intros H. rewrite (IH H). reflexivity.
Qed.

Lemma join_space_cons (a b : string) (l : list string) :
  join_space (a :: b :: l) = a +:+ String " " (join_space (b :: l)).
Proof. reflexivity. Qed.

(** Splitting undoes joining, for a non-empty list of space-free words. *)
Lemma split_join (ws : list string) :
  ws <> [] ->
  Forall (fun w => has_space w = false) ws ->
  split_space (join_space ws) = ws.
Proof.
  induction ws as [|w ws IH]; [congruence|].
  intros _ Hall. inversion Hall as [|? ? Hw Hws]; subst.
  destruct ws as [|w' ws].
  - simpl. apply split_space_word, Hw.
  - rewrite join_space_cons, split_space_app by exact Hw.
    rewrite IH; [reflexivity|congruence|assumption].
Qed.

(** Joining undoes splitting. *)
Lemma join_split (s : string) : join_space (split_space s) = s.
Proof.
  induction s as [|c s IH]; simpl; [reflexivity|].
  destruct (split_space_cons s) as (w & ws & Hs).
  rewrite Hs in *.
  destruct (Ascii.eqb c " ") eqn:E.
  - apply Ascii.eqb_eq in E. subst c.
    rewrite join_space_cons, IH. reflexivity.
  - destruct ws as [|w' ws].
    + simpl in *. congruence.
    + rewrite join_space_cons in *. rewrite <- IH. reflexivity.
Qed.

End SplitJoin.

(** ** The padder *)

Section Padder.

Lemma padded_tokens_length (toks : list string) (L : Z) (padword : string) :
  0 <= L -> Z.of_nat (length (padded_tokens toks L padword)) = L.
Proof.
  intros HL. unfold padded_tokens.
  destruct (Z.ltb_spec (Z.of_nat (length toks)) L).
  - rewrite length_app, length_replicate. lia.
  - rewrite length_take. lia.
Qed.

Lemma pad_unfold (comment : string) (L : Z) (padword : string) :
  0 <= L ->
  pad comment L padword
  = join_space (padded_tokens (split_space comment) L padword).
Proof.
  intros HL. unfold pad, padded_tokens, slice_to.
  destruct (Z.ltb_spec 0 (L - Z.of_nat (length (split_space comment))));
    destruct (Z.ltb_spec (Z.of_nat (length (split_space comment))) L);
    try lia; [reflexivity|].
  destruct (Z.ltb_spec L 0); [lia|reflexivity].
Qed.

(** For a pad token without a space and a positive target length, the
    tokens of the padded string are the padded tokens of the comment. *)
Lemma split_pad (comment : string) (L : Z) (padword : string) :
  has_space padword = false ->
  1 <= L ->
  split_space (pad comment L padword)
  = padded_tokens (split_space comment) L padword.
Proof.
  intros Hpw HL. rewrite pad_unfold by lia.
  apply split_join.
  - intros Hnil.
    pose proof (padded_tokens_length (split_space comment) L padword) as Hlen.
    rewrite Hnil in Hlen. simpl in Hlen. lia.
  - unfold padded_tokens.
    pose proof (split_space_no_space comment) as Hns.
    destruct (_ <? _).
    + apply Forall_app. split; [exact Hns|].
      apply Forall_replicate. exact Hpw.
    + apply Forall_take. exact Hns.
Qed.

End Padder.

(** C7 as stated fails at the target length 0: the token list is cut to
    nothing, the padded string is empty, and an empty string splits into
    one (empty) token, not into none. *)
Lemma pad_zero_length_counterexample :
  pad "a" 0 default_padword = "" /\
  split_space (pad "a" 0 default_padword) = [""] /\
  Z.of_nat (length (split_space (pad "a" 0 default_padword))) <> 0.
Proof.
  split; [reflexivity|]. split; [reflexivity|]. vm_compute. discriminate.
Qed.

(** C7 (amended): for every comment and every target length [L >= 1], the
    string returned by [pad] has exactly [L] space-separated tokens: the
    tokens of the comment followed by pad tokens up to length [L] when there
    are fewer than [L] of them, and the first [L] tokens otherwise. *)
Theorem pad_exact_length (comment : string) (L : Z) :
  1 <= L ->
  let toks := split_space comment in
  let result := split_space (pad comment L default_padword) in
  Z.of_nat (length result) = L /\
  (Z.of_nat (length toks) < L ->
   result = toks ++ replicate (Z.to_nat (L - Z.of_nat (length toks)))
                              default_padword) /\
  (L <= Z.of_nat (length toks) -> result = take (Z.to_nat L) toks).
Proof.
  intros HL toks result. subst toks result.
  rewrite split_pad by (reflexivity || lia).
  split; [apply padded_tokens_length; lia|].
  unfold padded_tokens.
  split; intros Hlen.
  - destruct (Z.ltb_spec (Z.of_nat (length (split_space comment))) L);
      [reflexivity|lia].
  - destruct (Z.ltb_spec (Z.of_nat (length (split_space comment))) L);
      [lia|reflexivity].
Qed.

(** The padded example of the specification: one token padded to three. *)
Lemma pad_exact_length_witness :
  1 <= 3 /\
  Z.of_nat (length (split_space (pad "idiot" 3 default_padword))) = 3.
Proof.
  split; [lia|].
  exact (proj1 (pad_exact_length "idiot" 3 ltac:(lia))).
Defined.

(** C9 as stated fails at the target length 1: nothing is appended, the
    padded empty string is the empty string again, and it does not begin
    with a space. *)
Lemma pad_empty_one_counterexample :
  1 <= 1 /\
  pad "" 1 default_padword = "" /\
  String.get 0 (pad "" 1 default_padword) <> Some " "%char.
Proof.
  split; [lia|]. split; [reflexivity|]. vm_compute. discriminate.
Qed.

(** C9 (amended): for every target length [L >= 1], padding the empty string
    does not give [L] pad tokens: the tokens of the result are one empty
    token followed by [L - 1] pad tokens. The returned string begins with a
    space when [L >= 2], and is the empty string when [L = 1]. *)
Theorem pad_empty_string (L : Z) :
  1 <= L ->
  let result := pad "" L default_padword in
  split_space result = "" :: replicate (Z.to_nat (L - 1)) default_padword /\
  split_space result <> replicate (Z.to_nat L) default_padword /\
  (2 <= L -> String.get 0 result = Some " "%char) /\
  (L = 1 -> result = "").
Proof.
  intros HL result.
  assert (Htok : split_space result
                 = "" :: replicate (Z.to_nat (L - 1)) default_padword).
  { subst result. rewrite split_pad by (reflexivity || lia).
    unfold padded_tokens. simpl split_space. simpl length.
    destruct (Z.ltb_spec (Z.of_nat 1) L) as [Hlt|Hge].
    - simpl; repeat f_equal; try lia.
    - replace L with 1 by lia. reflexivity. }
  split; [exact Htok|].
  split.
  - rewrite Htok. replace (Z.to_nat L) with (S (Z.to_nat (L - 1))) by lia.
    simpl. discriminate.
  - split.
    + intros H2. subst result. rewrite pad_unfold by lia.
      unfold padded_tokens. simpl split_space. simpl length.
      destruct (Z.ltb_spec (Z.of_nat 1) L) as [Hlt|Hge]; [|lia].
      replace (Z.to_nat (L - Z.of_nat 1)) with (S (Z.to_nat (L - 2))) by lia.
      reflexivity.
    + intros ->. reflexivity.
Qed.

(** The empty comment padded to three tokens. *)
Lemma pad_empty_string_witness :
  1 <= 3 /\ split_space (pad "" 3 default_padword) = [""; "<pad>"; "<pad>"].
Proof.
  split; [lia|].
  exact (proj1 (pad_empty_string 3 ltac:(lia))).
Defined.

(** ** Reading a file in chunks *)

Section Chunks.

Context {A : Type}.

(** The chunks of a positive size put back together give the rows read. *)
Lemma chunks_join (n : nat) (l : list A) :
  mjoin (Frame.chunks (S n) l) = l.
Proof.
  remember (length l) as k eqn:Hk. revert l Hk.
  induction k as [k IH] using lt_wf_ind. intros l Hk.
  destruct l as [|x l]; simp chunks; [reflexivity|].
  simpl. rewrite (IH (length (drop n l))).
  - rewrite take_drop. reflexivity.
  - subst k. rewrite length_drop. simpl. lia.
  - reflexivity.
Qed.

(** No chunk is longer than the chunk size. *)
Lemma chunks_length (n : nat) (l : list A) :
  Forall (fun chunk => (length chunk <= S n)%nat) (Frame.chunks (S n) l).
Proof.
  remember (length l) as k eqn:Hk. revert l Hk.
  induction k as [k IH] using lt_wf_ind. intros l Hk.
  destruct l as [|x l]; simp chunks; [constructor|].
  constructor.
  - simpl. rewrite length_take. lia.
  - apply (IH (length (drop n l))); [|reflexivity].
    subst k. rewrite length_drop. simpl. lia.
Qed.

Lemma foldl_mjoin {B} (f : B -> A -> B) (b : B) (ls : list (list A)) :
  foldl f b (mjoin ls) = foldl (foldl f) b ls.
Proof.
  revert b. induction ls as [|l ls IH]; intros b; [reflexivity|].
  simpl. rewrite foldl_app. apply IH.
Qed.

Lemma chunks_fmap {B} (f : A -> B) (n : nat) (l : list A) :
  Frame.chunks (S n) (f <$> l) = fmap (M:=list) f <$> Frame.chunks (S n) l.
Proof.
  remember (length l) as k eqn:Hk. revert l Hk.
  induction k as [k IH] using lt_wf_ind. intros l Hk.
  destruct l as [|x l]; [reflexivity|].
  rewrite fmap_cons. simp chunks. rewrite fmap_cons, fmap_cons.
  rewrite <- fmap_take, <- fmap_drop. f_equal.
  apply (IH (length (drop n l))); [|reflexivity].
  subst k. rewrite length_drop. simpl. lia.
Qed.

Lemma reader_chunks_fmap {B} (f : A -> B) (n : nat) (l : list A) :
  Frame.reader_chunks (S n) (f <$> l)
  = fmap (M:=list) f <$> Frame.reader_chunks (S n) l.
Proof.
  destruct l as [|x l]; [reflexivity|]. apply (chunks_fmap f n (x :: l)).
Qed.

Lemma reader_chunks_join (n : nat) (l : list A) :
  mjoin (Frame.reader_chunks (S n) l) = l.
Proof.
  destruct l as [|x l]; [reflexivity|]. apply (chunks_join n (x :: l)).
Qed.

Lemma reader_chunks_cons (n : nat) (l : list A) :
  l <> [] -> Frame.reader_chunks n l = Frame.chunks n l.
Proof. destruct l; [congruence|reflexivity]. Qed.

End Chunks.

(** ** What is read from a file *)

Section Reading.

(** No text that passes for a str is a missing value. *)
Lemma plain_text_not_na (s : string) : plain_text s = true -> s ∉ na_values.
Proof.
  unfold plain_text. intros Hp Hin.
  apply andb_true_iff in Hp as [Hp _].
  rewrite bool_decide_eq_true_2 in Hp by exact Hin. discriminate.
Qed.

Lemma read_cell_plain (s : string) : plain_text s = true -> read_cell s = Str s.
Proof.
  intros Hp. unfold read_cell.
  rewrite bool_decide_eq_false_2 by (apply plain_text_not_na, Hp).
  rewrite Hp. reflexivity.
Qed.

(** A file of plain texts is read as the frame of these strings. *)
Lemma read_from_plain (file : list CsvRecord) (start : nat) :
  all_plain file ->
  Frame.read_from start file = raw_row <$> Frame.label_from start file.
Proof.
  unfold all_plain. intros Hfile. revert start.
  induction Hfile as [|r file Hr _ IH]; intros start; [reflexivity|].
  simpl. rewrite (read_cell_plain _ Hr), IH. reflexivity.
Qed.

Lemma as_strings_raw (on_nan : exn) (df : DataFrame) :
  as_strings on_nan (raw_row <$> df) = inr df.
Proof.
  induction df as [|[l t o] df IH]; [reflexivity|].
  rewrite fmap_cons. simpl. rewrite IH. reflexivity.
Qed.

Lemma as_strings_app (on_nan : exn) (a b : RawFrame) :
  as_strings on_nan (a ++ b)
  = match as_strings on_nan a with
    | inr a' => match as_strings on_nan b with
                | inr b' => inr (a' ++ b')
                | inl e => inl e
                end
    | inl e => inl e
    end.
Proof.
  induction a as [|r a IH]; simpl.
  - destruct (as_strings on_nan b); reflexivity.
  - destruct (raw_cell r); [|reflexivity..].
    rewrite IH. destruct (as_strings on_nan a); [reflexivity|].
    destruct (as_strings on_nan b); reflexivity.
Qed.

(** The labels of the rows are those read. *)
Lemma as_strings_labels (on_nan : exn) (rows : RawFrame) (df : DataFrame) :
  as_strings on_nan rows = inr df -> row_label <$> df = raw_label <$> rows.
Proof.
  revert df. induction rows as [|r rows IH]; intros df; simpl.
  - intros [= <-]. reflexivity.
  - destruct (raw_cell r); [|discriminate..].
    destruct (as_strings on_nan rows) as [e|df']; [discriminate|].
    intros [= <-]. rewrite !fmap_cons. simpl. f_equal. apply IH. reflexivity.
Qed.

Lemma map_until_fmap {A B} (f : A -> exn + B) (h : B -> A) (l : list B) :
  (forall x, f (h x) = inr x) -> map_until f (h <$> l) = inr l.
Proof.
  intros Hf. induction l as [|x l IH]; [reflexivity|].
  rewrite fmap_cons. simpl. rewrite Hf, IH. reflexivity.
Qed.

(** An error in the rows of some chunk is an error of the loop over the
    chunks. *)
Lemma map_until_raises (on_nan e : exn) (chunks : list RawFrame) :
  as_strings on_nan (mjoin chunks) = inl e ->
  map_until (as_strings on_nan) chunks = inl e.
Proof.
  induction chunks as [|c chunks IH]; [discriminate|].
  simpl. rewrite as_strings_app.
  destruct (as_strings on_nan c) as [e'|c']; [congruence|].
  destruct (as_strings on_nan (mjoin chunks)) as [e'|df]; [|discriminate].
  intros [= ->]. rewrite IH by reflexivity. reflexivity.
Qed.

(** The chunks of a file of plain texts are chunks of strings. *)
Lemma read_chunks_strings (on_nan : exn) (n : nat) (file : list CsvRecord) :
  all_plain file ->
  map_until (as_strings on_nan)
            (Frame.reader_chunks (S n) (Frame.read_from 0 file))
  = inr (Frame.reader_chunks (S n) (Frame.label_from 0 file)).
Proof.
  intros Hfile. rewrite (read_from_plain _ _ Hfile), reader_chunks_fmap.
  apply map_until_fmap. intros df. apply as_strings_raw.
Qed.

(** A file with an empty cell, after rows that are read as strings or are
    empty as well, cannot be used: the first empty cell raises. *)
Lemma as_strings_empty_cell (on_nan : exn) (file : list CsvRecord)
  (start : nat) :
  Forall (fun r => plain_text r.1 = true \/ r.1 = "") file ->
  Exists (fun r => r.1 = "") file ->
  as_strings on_nan (Frame.read_from start file) = inl on_nan.
Proof.
  intros Hall Hex. revert start.
  induction Hall as [|r file Hr Hall IH]; intros start.
  - apply Exists_nil in Hex. destruct Hex.
  - simpl. destruct Hr as [Hr|Hr].
    + rewrite (read_cell_plain _ Hr).
      apply Exists_cons in Hex as [Hex|Hex].
      * rewrite Hex in Hr. discriminate.
      * rewrite (IH Hex). reflexivity.
    + rewrite Hr. reflexivity.
Qed.

End Reading.

(** ** The word frequency counter *)

Section Counter.

Lemma get_incr (d : dict) (k word : string) :
  Dict.get (Dict.incr d k) word
  = if decide (k = word) then Some (default 0 (Dict.get d word) + 1)
    else Dict.get d word.
Proof.
  induction d as [|[k' v] d IH]; simpl.
  - case_decide; reflexivity.
  - destruct (decide (k' = k)) as [->|Hne]; simpl.
    + destruct (decide (k = word)); reflexivity.
    + rewrite IH.
      destruct (decide (k = word)), (decide (k' = word));
        try congruence; reflexivity.
Qed.

Lemma keys_incr (d : dict) (k : string) :
  (Dict.incr d k).*1 = if bool_decide (k ∈ d.*1) then d.*1 else d.*1 ++ [k].
Proof.
  induction d as [|[k' v] d IH]; [reflexivity|].
  cbn [Dict.incr]. rewrite (fmap_cons fst (k', v) d). cbn [fst].
  destruct (decide (k' = k)) as [->|Hne].
  - rewrite fmap_cons. cbn [fst].
    rewrite bool_decide_eq_true_2 by (left). reflexivity.
  - rewrite fmap_cons, IH. cbn [fst].
    destruct (bool_decide_reflect (k ∈ d.*1)) as [Hin|Hnin].
    + rewrite bool_decide_eq_true_2 by (right; exact Hin). reflexivity.
    + rewrite bool_decide_eq_false_2; [reflexivity|].
      intros Hin. apply elem_of_cons in Hin as [->|Hin]; congruence.
Qed.

Lemma NoDup_keys_incr (d : dict) (k : string) :
  NoDup d.*1 -> NoDup (Dict.incr d k).*1.
Proof.
  intros Hd. rewrite keys_incr.
  destruct (bool_decide_reflect (k ∈ d.*1)) as [Hin|Hnin]; [exact Hd|].
  apply NoDup_app. split; [exact Hd|]. split.
  - intros x Hx Hx'. apply list_elem_of_singleton in Hx'. subst x. tauto.
  - apply NoDup_singleton.
Qed.

Lemma NoDup_keys_foldl_incr (words : list string) (d : dict) :
  NoDup d.*1 -> NoDup (foldl Dict.incr d words).*1.
Proof.
  revert d. induction words as [|k words IH]; intros d Hd; [exact Hd|].
  simpl. apply IH, NoDup_keys_incr, Hd.
Qed.

Lemma occurrences_nonneg (word : string) (words : list string) :
  0 <= occurrences word words.
Proof. unfold occurrences. lia. Qed.

Lemma occurrences_cons (word k : string) (words : list string) :
  occurrences word (k :: words)
  = (if decide (k = word) then 1 else 0) + occurrences word words.
Proof.
  unfold occurrences. rewrite filter_cons.
  destruct (decide (k = word)); simpl; lia.
Qed.

Lemma occurrences_elem_of (word : string) (words : list string) :
  word ∈ words -> 1 <= occurrences word words.
Proof.
  induction words as [|k words IH]; intros Hin.
  - apply elem_of_nil in Hin. destruct Hin.
  - rewrite occurrences_cons.
    pose proof (occurrences_nonneg word words).
    apply elem_of_cons in Hin as [->|Hin].
    + rewrite decide_True by reflexivity. lia.
    + specialize (IH Hin). case_decide; lia.
Qed.

(** The count a word has after a run of increments. *)
Lemma get_foldl_incr (words : list string) (d : dict) (word : string) :
  Dict.get (foldl Dict.incr d words) word
  = if occurrences word words =? 0 then Dict.get d word
    else Some (default 0 (Dict.get d word) + occurrences word words).
Proof.
  revert d. induction words as [|k words IH]; intros d; [reflexivity|].
  simpl foldl. rewrite IH, get_incr, occurrences_cons.
  pose proof (occurrences_nonneg word words) as Hn.
  destruct (decide (k = word)) as [->|Hne].
  - destruct (Z.eqb_spec (occurrences word words) 0) as [->|Hz];
      destruct (Z.eqb_spec (1 + occurrences word words) 0); try lia;
      simpl; f_equal; lia.
  - destruct (Z.eqb_spec (occurrences word words) 0) as [->|Hz];
      destruct (Z.eqb_spec (0 + occurrences word words) 0); try lia;
      simpl; f_equal; lia.
Qed.

Lemma count_chunk_words (padword : string) (chunk : DataFrame) (d : dict) :
  count_chunk padword d chunk
  = foldl Dict.incr d (chunk ≫= (fun r => split_space (comment_text r))).
Proof.
  unfold count_chunk. revert d.
  induction chunk as [|r chunk IH]; intros d; [reflexivity|].
  simpl. rewrite foldl_app, IH. reflexivity.
Qed.

Lemma label_from_words (file : list CsvRecord) (start : nat) :
  Frame.label_from start file ≫= (fun r => split_space (comment_text r))
  = corpus_words file.
Proof.
  unfold corpus_words. revert start.
  induction file as [|r file IH]; intros start; [reflexivity|].
  simpl. f_equal. apply IH.
Qed.

(** Chunking does not change what is counted. *)
Lemma count_chunks_words (padword : string) (n : nat)
  (file : list CsvRecord) :
  count_chunks padword (Frame.reader_chunks (S n) (Frame.label_from 0 file))
  = foldl Dict.incr [] (corpus_words file).
Proof.
  unfold count_chunks.
  transitivity (count_chunk padword []
                  (mjoin (Frame.reader_chunks (S n) (Frame.label_from 0 file)))).
  - symmetry. apply (foldl_mjoin (fun d r =>
      foldl (count_word padword) d (split_space (comment_text r)))).
  - rewrite reader_chunks_join, count_chunk_words, label_from_words.
    reflexivity.
Qed.

End Counter.

(** What [count_occurrences] returns on a file whose comments are all read
    as strings. *)
Lemma count_occurrences_table (w : World) (file_name : string)
  (chunk_size : Z) (padword : string) (file : list CsvRecord) :
  1 <= chunk_size ->
  files w !! file_name = Some file ->
  all_plain file ->
  let word_count := foldl Dict.incr [] (corpus_words file) in
  count_occurrences file_name chunk_size padword w = (inr word_count, w) /\
  NoDup word_count.*1 /\
  (forall word,
     Dict.get word_count word
     = if occurrences word (corpus_words file) =? 0 then None
       else Some (occurrences word (corpus_words file))).
Proof.
  intros Hcs Hfile Hplain word_count. subst word_count.
  split; [|split].
  - unfold count_occurrences, read_csv, from_sum, mbind, M_bind, mret, M_ret.
    destruct (Z.ltb_spec chunk_size 1) as [|_]; [lia|].
    rewrite Hfile.
    destruct (Z.to_nat chunk_size) as [|n] eqn:Hn; [lia|].
    rewrite (read_chunks_strings _ _ _ Hplain), count_chunks_words.
    reflexivity.
  - apply NoDup_keys_foldl_incr. constructor.
  - intros word. rewrite get_foldl_incr. simpl.
    destruct (_ =? _); [reflexivity|]. f_equal.
Qed.

(** What [count_occurrences] does on a file with an empty comment. *)
Lemma count_occurrences_empty_cell (w : World) (file_name : string)
  (chunk_size : Z) (padword : string) (file : list CsvRecord) :
  1 <= chunk_size ->
  files w !! file_name = Some file ->
  Forall (fun r => plain_text r.1 = true \/ r.1 = "") file ->
  Exists (fun r => r.1 = "") file ->
  count_occurrences file_name chunk_size padword w = (inl AttributeError, w).
Proof.
  intros Hcs Hfile Hall Hex.
  unfold count_occurrences, read_csv, from_sum, mbind, M_bind, mret, M_ret.
  destruct (Z.ltb_spec chunk_size 1) as [|_]; [lia|].
  rewrite Hfile.
  destruct (Z.to_nat chunk_size) as [|n] eqn:Hn; [lia|].
  pose proof (as_strings_empty_cell AttributeError file 0 Hall Hex) as Hraise.
  rewrite <- (reader_chunks_join n (Frame.read_from 0 file)) in Hraise.
  rewrite (map_until_raises _ _ _ Hraise). reflexivity.
Qed.




(** ** The vocabulary builder *)

Section Vocabulary.

Variables threshold uncommon_limit : Z.

Abbreviation run := (vocab_run threshold uncommon_limit).

Lemma run_cons start vocab uncommon word occurrences items :
  run start vocab uncommon ((word, occurrences) :: items)
  = if threshold <? occurrences
    then run (start + 1) (<[word := start]> vocab) uncommon items
    else if Z.of_nat (length uncommon) <? uncommon_limit
         then run (start + 1) vocab (uncommon ++ [word]) items
         else run (start + 1) vocab uncommon items.
Proof.
  unfold vocab_run. simpl.
  destruct (threshold <? occurrences); [reflexivity|].
  destruct (Z.of_nat (length uncommon) <? uncommon_limit); reflexivity.
Qed.

(** A word that never exceeds the threshold keeps the entry it had. *)
Lemma run_lookup_other (items : dict) start vocab uncommon (word : string) :
  (forall c, (word, c) ∈ items -> c <= threshold) ->
  (run start vocab uncommon items).1 !! word = vocab !! word.
Proof.
  revert start vocab uncommon.
  induction items as [|[k c] items IH]; intros start vocab uncommon Hle;
    [reflexivity|].
  assert (Hrest : forall c', (word, c') ∈ items -> c' <= threshold).
  { intros c' Hin. apply Hle. right. exact Hin. }
  rewrite run_cons.
  destruct (Z.ltb_spec threshold c) as [Hlt|Hge].
  - rewrite IH by exact Hrest. apply lookup_insert_ne.
    intros ->. specialize (Hle c ltac:(left)). lia.
  - destruct (_ <? _); apply IH, Hrest.
Qed.

(** A word above the threshold is mapped to its position in the table. *)
Lemma run_lookup_real (items : dict) start vocab uncommon
  (i : nat) (word : string) (c : Z) :
  NoDup items.*1 ->
  items !! i = Some (word, c) ->
  threshold < c ->
  (run start vocab uncommon items).1 !! word = Some (start + Z.of_nat i).
Proof.
  revert start vocab uncommon i.
  induction items as [|[k c'] items IH]; intros start vocab uncommon i Hnd Hi Hc;
    [discriminate|].
  rewrite fmap_cons in Hnd. apply NoDup_cons in Hnd as [Hk Hnd].
  destruct i as [|i]; simpl in Hi.
  - injection Hi as -> ->. rewrite run_cons.
    destruct (Z.ltb_spec threshold c); [|lia].
    rewrite run_lookup_other.
    + rewrite lookup_insert_eq. f_equal. lia.
    + intros c0 Hin. exfalso. apply Hk.
      apply list_elem_of_fmap. exists (word, c0). split; [reflexivity|exact Hin].
  - rewrite run_cons.
    destruct (_ <? _); [|destruct (_ <? _)];
      rewrite (IH _ _ _ i Hnd Hi Hc); f_equal; lia.
Qed.

(** Whether a word has an entry above the threshold can be decided. *)
Lemma real_or_not (items : dict) (word : string) :
  (exists i c, items !! i = Some (word, c) /\ threshold < c) \/
  (forall c, (word, c) ∈ items -> c <= threshold).
Proof.
  destruct (decide (Exists (fun kc => kc.1 = word /\ threshold < kc.2) items))
    as [Hex|Hnex].
  - left. apply Exists_exists in Hex as ([k c] & Hin & Hk & Hc).
    simpl in *. subst k.
    apply list_elem_of_lookup in Hin as [i Hi]. eauto.
  - right. intros c Hin.
    destruct (Z.le_gt_cases c threshold) as [|Hgt]; [assumption|].
    exfalso. apply Hnex. apply Exists_exists.
    exists (word, c). simpl. split; [exact Hin|]. split; [reflexivity|lia].
Qed.

Lemma initial_vocab_lookup (unknown padword word : string) (v : Z) :
  initial_vocab unknown padword !! word = Some v ->
  (word = padword /\ v = -1) \/ (word = unknown /\ v = -2).
Proof.
  unfold initial_vocab. intros H.
  destruct (decide (padword = word)) as [->|Hp].
  - rewrite lookup_insert_eq in H. left. split; congruence.
  - rewrite lookup_insert_ne in H by exact Hp.
    destruct (decide (unknown = word)) as [->|Hu].
    + rewrite lookup_insert_eq in H. right. split; congruence.
    + rewrite lookup_insert_ne, lookup_empty in H by exact Hu. discriminate.
Qed.

(** The entries of the vocabulary after the loop: a word above the
    threshold has its position, any other word the entry the initial
    vocabulary gives it. *)
Lemma vocab_loop_lookup (word_count : dict) (unknown padword word : string)
  (v : Z) :
  NoDup word_count.*1 ->
  (vocab_loop word_count threshold uncommon_limit unknown padword).1 !! word
  = Some v ->
  (exists (i : nat) c, word_count !! i = Some (word, c) /\ threshold < c /\
                       v = Z.of_nat i) \/
  ((forall c, (word, c) ∈ word_count -> c <= threshold) /\
   initial_vocab unknown padword !! word = Some v).
Proof.
  intros Hnd Hv. unfold vocab_loop, Dict.enumerate in Hv.
  change (foldl _ _ _) with (run 0 (initial_vocab unknown padword) [] word_count)
    in Hv.
  destruct (real_or_not word_count word) as [(i & c & Hi & Hc)|Hle].
  - left. exists i, c.
    rewrite (run_lookup_real _ _ _ _ i word c Hnd Hi Hc) in Hv.
    split; [exact Hi|]. split; [exact Hc|]. injection Hv as <-. lia.
  - right. rewrite run_lookup_other in Hv by exact Hle. tauto.
Qed.

Lemma vocab_loop_real (word_count : dict) (unknown padword word : string)
  (i : nat) (c : Z) :
  NoDup word_count.*1 ->
  word_count !! i = Some (word, c) ->
  threshold < c ->
  (vocab_loop word_count threshold uncommon_limit unknown padword).1 !! word
  = Some (Z.of_nat i).
Proof.
  intros Hnd Hi Hc. unfold vocab_loop, Dict.enumerate.
  change (foldl _ _ _) with (run 0 (initial_vocab unknown padword) [] word_count).
  rewrite (run_lookup_real _ _ _ _ i word c Hnd Hi Hc). reflexivity.
Qed.

Lemma vocab_loop_other (word_count : dict) (unknown padword word : string) :
  (forall c, (word, c) ∈ word_count -> c <= threshold) ->
  (vocab_loop word_count threshold uncommon_limit unknown padword).1 !! word
  = initial_vocab unknown padword !! word.
Proof.
  intros Hle. unfold vocab_loop, Dict.enumerate.
  change (foldl _ _ _) with (run 0 (initial_vocab unknown padword) [] word_count).
  apply run_lookup_other, Hle.
Qed.

(** No two words share an index. *)
Lemma vocab_loop_injective (word_count : dict) (unknown padword : string)
  (w1 w2 : string) (v : Z) :
  NoDup word_count.*1 ->
  let vocab :=
    (vocab_loop word_count threshold uncommon_limit unknown padword).1 in
  vocab !! w1 = Some v -> vocab !! w2 = Some v -> w1 = w2.
Proof.
  intros Hnd vocab H1 H2. subst vocab.
  apply vocab_loop_lookup in H1 as [(i1 & c1 & Hi1 & _ & Hv1)|[_ Hinit1]];
    apply vocab_loop_lookup in H2 as [(i2 & c2 & Hi2 & _ & Hv2)|[_ Hinit2]];
    try assumption.
  - assert (i1 = i2) by lia. subst i2. congruence.
  - apply initial_vocab_lookup in Hinit2. lia.
  - apply initial_vocab_lookup in Hinit1. lia.
  - apply initial_vocab_lookup in Hinit1, Hinit2.
    destruct Hinit1 as [[-> ?]|[-> ?]], Hinit2 as [[-> ?]|[-> ?]];
      try reflexivity; lia.
Qed.

End Vocabulary.

(** Without a rewrite, [build_vocab] returns the vocabulary of the loop and
    its reverse, and leaves the world as it was. *)
Lemma build_vocab_no_modify word_count threshold padword unknown
  file_dir file_name new_dir chunk_size uncommon_limit (w : World) :
  build_vocab word_count threshold padword unknown false
              file_dir file_name new_dir chunk_size uncommon_limit w
  = (inr ((vocab_loop word_count threshold uncommon_limit unknown padword).1,
          reverse
            (vocab_loop word_count threshold uncommon_limit unknown padword).1),
     w).
Proof.
  unfold build_vocab.
  destruct (vocab_loop _ _ _ _ _) as [vocab uncommon]. reflexivity.
Qed.

(** With a rewrite, the vocabulary returned, when one is, is the same. *)
Lemma build_vocab_vocabulary word_count threshold padword unknown modify
  file_dir file_name new_dir chunk_size uncommon_limit (w w' : World)
  vocab reverse_vocab :
  build_vocab word_count threshold padword unknown modify
              file_dir file_name new_dir chunk_size uncommon_limit w
  = (inr (vocab, reverse_vocab), w') ->
  vocab = (vocab_loop word_count threshold uncommon_limit unknown padword).1 /\
  reverse_vocab = reverse vocab.
Proof.
  unfold build_vocab.
  destruct (vocab_loop _ _ _ _ _) as [vocab0 uncommon].
  unfold mbind at 1. unfold M_bind at 1.
  destruct (_ w) as [[e|[]] w1]; [discriminate|].
  unfold mret, M_ret. intros H. injection H as <- <- _. split; reflexivity.
Qed.

(** ** The empty comment *)

Lemma get_Some_lookup (d : dict) (k : string) (v : Z) :
  Dict.get d k = Some v -> exists i : nat, d !! i = Some (k, v).
Proof.
  induction d as [|[k' v'] d IH]; simpl; [discriminate|].
  destruct (decide (k' = k)) as [->|Hne].
  - intros [= ->]. exists 0%nat. reflexivity.
  - intros H. destruct (IH H) as [i Hi]. exists (S i). exact Hi.
Qed.




(** C3 as stated fails when the pad token itself is a word of the table
    with a count above the threshold: it then gets its position as index. *)
Lemma reserved_index_counterexample :
  exists vocab reverse_vocab,
    build_vocab [(default_padword, 5)] 3 default_padword default_unknown false
                None None None 20000 500 quiet_world
    = (inr (vocab, reverse_vocab), quiet_world) /\
    vocab !! default_padword = Some 0 /\
    vocab !! default_padword <> Some (-1).
Proof.
  eexists. eexists. split; [apply build_vocab_no_modify|].
  split; [vm_compute; reflexivity|vm_compute; discriminate].
Qed.

(** C3 (amended): for every word count table, threshold and uncommon limit,
    and distinct unknown and pad tokens, the vocabulary returned by
    [build_vocab] maps the unknown token to -2 provided that it is no word
    of the table whose count exceeds the threshold, and the pad token to -1
    under the same proviso; the counts of all other words are irrelevant. A
    reserved token that is such a word is given its enumeration index, its
    position in the table, instead, like any other word. *)
Theorem reserved_indices_kept (word_count : dict)
  (threshold uncommon_limit : Z) (padword unknown : string)
  (file_dir file_name new_dir : option string) (chunk_size : Z) (w : World) :
  unknown <> padword ->
  exists vocab reverse_vocab,
    build_vocab word_count threshold padword unknown false
                file_dir file_name new_dir chunk_size uncommon_limit w
    = (inr (vocab, reverse_vocab), w) /\
    ((forall c, (unknown, c) ∈ word_count -> c <= threshold) ->
     vocab !! unknown = Some (-2)) /\
    ((forall c, (padword, c) ∈ word_count -> c <= threshold) ->
     vocab !! padword = Some (-1)) /\
    (NoDup word_count.*1 ->
     forall (i : nat) token c,
       token = unknown \/ token = padword ->
       word_count !! i = Some (token, c) -> threshold < c ->
       vocab !! token = Some (Z.of_nat i) /\
       vocab !! token <> Some (-2) /\ vocab !! token <> Some (-1)).
Proof.
  intros Hne. eexists. eexists.
  split; [apply build_vocab_no_modify|].
  unfold initial_vocab. split; [|split].
  - intros Hunk. rewrite vocab_loop_other by assumption.
    unfold initial_vocab.
    rewrite lookup_insert_ne by congruence. apply lookup_insert_eq.
  - intros Hpad. rewrite vocab_loop_other by assumption.
    apply lookup_insert_eq.
  - intros Hnd i token c _ Hi Hc. cbn [fst].
    rewrite (vocab_loop_real _ _ _ _ _ _ i c Hnd Hi Hc).
    repeat split; intros [=]; lia.
Qed.

(** A table in which the pad token is above the threshold and the unknown
    token does not occur: the unknown token keeps -2, the pad token gets its
    position. *)
Lemma reserved_indices_kept_witness :
  exists vocab reverse_vocab,
    build_vocab [("you", 5); ("idiot", 1); ("<pad>", 7)] 3
                default_padword default_unknown false
                None None None 20000 500 quiet_world
    = (inr (vocab, reverse_vocab), quiet_world) /\
    vocab !! default_unknown = Some (-2) /\
    vocab !! default_padword = Some 2.
Proof.
  destruct (reserved_indices_kept [("you", 5); ("idiot", 1); ("<pad>", 7)] 3
              500 default_padword default_unknown None None None 20000
              quiet_world)
    as (vocab & reverse_vocab & Hrun & Hunk & _ & Hreal).
  - discriminate.
  - exists vocab, reverse_vocab. split; [exact Hrun|]. split.
    + apply Hunk. intros c Hin.
      repeat (apply elem_of_cons in Hin as [Heq|Hin]; [discriminate Heq|]).
      apply elem_of_nil in Hin. destruct Hin.
    + apply (Hreal ltac:(compute_done) 2%nat default_padword 7);
        [right; reflexivity|reflexivity|lia].
Defined.

(** C4 as stated fails when a word at or below the threshold comes before a
    word above it: the index of the skipped position is never used, so here
    the only real word has index 1 and no word has index 0. *)
Lemma index_gap_counterexample :
  exists vocab reverse_vocab,
    build_vocab [("a", 1); ("b", 5)] 3 default_padword default_unknown false
                None None None 20000 500 quiet_world
    = (inr (vocab, reverse_vocab), quiet_world) /\
    vocab !! "b" = Some 1 /\
    forall word, vocab !! word <> Some 0.
Proof.
  eexists. eexists. split; [apply build_vocab_no_modify|].
  split; [vm_compute; reflexivity|].
  intros word Hword.
  apply vocab_loop_lookup in Hword as [(i & c & Hi & Hc & Hv)|[_ Hinit]].
  - assert (i = 0%nat) by lia. subst i. simpl in Hi.
    injection Hi as _ <-. lia.
  - apply initial_vocab_lookup in Hinit. lia.
  - compute_done.
Qed.

(** C4 (amended): for every word count table (a dictionary, so with one
    entry per word) and threshold, every word whose count strictly exceeds
    the threshold appears in the vocabulary with a unique non-negative
    index, which is its position in the enumeration of the whole table. The
    non-negative indices are exactly these positions: they increase in
    enumeration order, and the positions of the words at or below the
    threshold are left unused, so they need neither start at 0 nor be
    contiguous. *)
Theorem real_word_indices (word_count : dict)
  (threshold uncommon_limit : Z) (padword unknown : string)
  (file_dir file_name new_dir : option string) (chunk_size : Z) (w : World) :
  NoDup word_count.*1 ->
  exists vocab reverse_vocab,
    build_vocab word_count threshold padword unknown false
                file_dir file_name new_dir chunk_size uncommon_limit w
    = (inr (vocab, reverse_vocab), w) /\
    (forall (i : nat) word c,
       word_count !! i = Some (word, c) -> threshold < c ->
       vocab !! word = Some (Z.of_nat i)) /\
    (forall w1 w2 v,
       vocab !! w1 = Some v -> vocab !! w2 = Some v -> w1 = w2) /\
    (forall word v,
       vocab !! word = Some v -> 0 <= v ->
       exists c, word_count !! Z.to_nat v = Some (word, c) /\ threshold < c).
Proof.
  intros Hnd. eexists. eexists.
  split; [apply build_vocab_no_modify|].
  split; [|split].
  - intros i word c Hi Hc. apply (vocab_loop_real _ _ _ _ _ _ i c); assumption.
  - intros w1 w2 v H1 H2.
    exact (vocab_loop_injective _ _ _ _ _ _ _ _ Hnd H1 H2).
  - intros word v Hv Hpos.
    apply vocab_loop_lookup in Hv as [(i & c & Hi & Hc & ->)|[_ Hinit]];
      [| |exact Hnd].
    + exists c. rewrite Nat2Z.id. split; assumption.
    + apply initial_vocab_lookup in Hinit. lia.
Qed.

(** A table of two distinct words. *)
Lemma real_word_indices_witness :
  exists vocab reverse_vocab,
    build_vocab [("a", 1); ("b", 5)] 3 default_padword default_unknown false
                None None None 20000 500 quiet_world
    = (inr (vocab, reverse_vocab), quiet_world) /\
    (forall (i : nat) word c,
       [("a", 1); ("b", 5)] !! i = Some (word, c) -> 3 < c ->
       vocab !! word = Some (Z.of_nat i)) /\
    (forall w1 w2 v,
       vocab !! w1 = Some v -> vocab !! w2 = Some v -> w1 = w2) /\
    (forall word v,
       vocab !! word = Some v -> 0 <= v ->
       exists c, [("a", 1); ("b", 5)] !! Z.to_nat v = Some (word, c) /\ 3 < c).
Proof.
  apply real_word_indices.
  compute_done.
Defined.

(** ** The tokenizer filter *)

Section TokenizerFilter.

Import Tokenizer.

Lemma lower_char_not_upper (c : ascii) : is_upper_char (lower_char c) = false.
Proof. destruct c as [[] [] [] [] [] [] [] []]; reflexivity. Qed.

(** Lower-casing changes a character only into a lower-case letter. *)
Lemma lower_char_fixed (c : ascii) :
  is_lower_char (lower_char c) = false -> lower_char c = c.
Proof.
  destruct c as [[] [] [] [] [] [] [] []];
    first [reflexivity | intros H; vm_compute in H; discriminate H].
Qed.

Lemma lower_is_lower_case (word : string) : is_lower_case (lower word) = true.
Proof.
  induction word as [|c word IH]; [reflexivity|].
  simpl. rewrite lower_char_not_upper, IH. reflexivity.
Qed.

Lemma lower_fixed (word : string) :
  has_lower_char (lower word) = false -> lower word = word.
Proof.
  induction word as [|c word IH]; [reflexivity|].
  simpl. intros H. apply orb_false_iff in H as [Hc Hw].
  rewrite (lower_char_fixed c Hc), (IH Hw). reflexivity.
Qed.

Lemma punctuations_no_lower :
  Forall (fun p => has_lower_char p = false) punctuations.
Proof. compute_done. Qed.

(** Lower-casing never turns a word into a punctuation token. *)
Lemma lower_punctuation (word : string) :
  lower word ∈ punctuations -> word ∈ punctuations.
Proof.
  intros Hin.
  pose proof (proj1 (Forall_forall _ _) punctuations_no_lower _ Hin) as Hno.
  rewrite (lower_fixed word Hno) in Hin. exact Hin.
Qed.

(** Lower-casing a second time changes nothing. *)
Lemma lower_lower (word : string) : lower (lower word) = lower word.
Proof.
  induction word as [|c word IH]; [reflexivity|].
  simpl. rewrite IH. f_equal.
  unfold lower_char at 1. rewrite lower_char_not_upper. reflexivity.
Qed.

Lemma lower_char_space (c : ascii) :
  Ascii.eqb (lower_char c) " " = Ascii.eqb c " ".
Proof. destruct c as [[] [] [] [] [] [] [] []]; reflexivity. Qed.

(** Lower-casing neither makes nor removes a space. *)
Lemma lower_has_space (word : string) :
  has_space (lower word) = has_space word.
Proof.
  induction word as [|c word IH]; [reflexivity|].
  simpl. rewrite lower_char_space, IH. reflexivity.
Qed.

End TokenizerFilter.



(** ** The corpus rewrite *)

Section Rewrite.

Variables (uncommon : list string) (unknown : string).

Abbreviation new_row := (replace_row uncommon unknown).

Lemma at_set_fresh (row : nat) (value : string) (df : DataFrame) :
  row ∉ row_label <$> df -> Frame.at_set row value df = df.
Proof.
  unfold Frame.at_set.
  induction df as [|r df IH]; intros Hnot; [reflexivity|].
  rewrite fmap_cons in Hnot. apply not_elem_of_cons in Hnot as [Hne Hnot].
  rewrite fmap_cons, (IH Hnot).
  rewrite bool_decide_eq_false_2 by congruence. reflexivity.
Qed.

Lemma labels_new_row (df : DataFrame) :
  row_label <$> (new_row <$> df) = row_label <$> df.
Proof. rewrite <- list_fmap_compose. reflexivity. Qed.

Lemma at_set_here (pre : DataFrame) (e : Row) (es : DataFrame) :
  NoDup (row_label <$> pre ++ e :: es) ->
  Frame.at_set (row_label e)
    (replace_words uncommon unknown (comment_text e))
    ((new_row <$> pre) ++ e :: es)
  = (new_row <$> pre ++ [e]) ++ es.
Proof.
  intros Hnd. rewrite fmap_app, fmap_cons in Hnd.
  apply NoDup_app in Hnd as (_ & Hpre & Hnd).
  apply NoDup_cons in Hnd as [Hes _].
  unfold Frame.at_set. rewrite fmap_app, fmap_cons.
  fold (Frame.at_set (row_label e)
          (replace_words uncommon unknown (comment_text e)) (new_row <$> pre)).
  fold (Frame.at_set (row_label e)
          (replace_words uncommon unknown (comment_text e)) es).
  rewrite !at_set_fresh.
  - rewrite bool_decide_eq_true_2 by reflexivity.
    rewrite fmap_app, <- app_assoc. reflexivity.
  - exact Hes.
  - rewrite labels_new_row. intros Hin. apply (Hpre _ Hin). left.
Qed.

Lemma find_replace_from (pre entries : DataFrame) :
  NoDup (row_label <$> pre ++ entries) ->
  foldl (fun df entry =>
           Frame.at_set (row_label entry)
             (replace_words uncommon unknown (comment_text entry)) df)
        ((new_row <$> pre) ++ entries) entries
  = new_row <$> pre ++ entries.
Proof.
  revert pre. induction entries as [|e es IH]; intros pre Hnd.
  - simpl. rewrite !app_nil_r. reflexivity.
  - simpl foldl. rewrite at_set_here by exact Hnd.
    rewrite IH; rewrite <- app_assoc; [reflexivity|exact Hnd].
Qed.

(** On a frame whose labels are distinct, [_find_replace] rewrites every
    row in place. *)
Lemma find_replace_rows (df : DataFrame) :
  NoDup (row_label <$> df) ->
  _find_replace df uncommon unknown = new_row <$> df.
Proof.
  intros Hnd. exact (find_replace_from [] df Hnd).
Qed.

(** A slice between two non-negative positions. *)
Lemma slice_nonneg {A} (l : list A) (a b : Z) :
  0 <= a -> 0 <= b ->
  slice l a b = drop (Z.to_nat a) (take (Z.to_nat b) l).
Proof.
  intros Ha Hb. unfold slice.
  destruct (Z.ltb_spec a 0); [lia|]. destruct (Z.ltb_spec b 0); [lia|].
  apply list_eq. intros i.
  rewrite lookup_take, !lookup_drop, lookup_take.
  repeat case_decide; try reflexivity; try lia.
  - f_equal. lia.
  - symmetry. apply lookup_ge_None. lia.
Qed.

(** The slices handed to the workers, put back together, are the first
    [processes * step] rows of the chunk. *)
Lemma slices_join {A} (l : list A) (step : Z) (p : nat) :
  0 <= step ->
  mjoin ((fun i => slice l (i * step) (step * (i + 1)))
           <$> (Z.of_nat <$> seq 0 p))
  = take (p * Z.to_nat step) l.
Proof.
  intros Hstep. induction p as [|p IH]; [reflexivity|].
  rewrite seq_S, !fmap_app, join_app, IH. simpl.
  rewrite app_nil_r, slice_nonneg by lia.
  replace (Z.to_nat (Z.of_nat p * step)) with (p * Z.to_nat step)%nat by lia.
  replace (Z.to_nat (step * (Z.of_nat p + 1)))
    with (Z.to_nat step + p * Z.to_nat step)%nat by lia.
  rewrite <- (take_drop (p * Z.to_nat step)
                (take (Z.to_nat step + p * Z.to_nat step) l)) at 2.
  rewrite take_take. f_equal. f_equal. lia.
Qed.

Lemma map_until_app {A B} (f : A -> exn + B) (a b : list A) :
  map_until f (a ++ b)
  = match map_until f a with
    | inr ra => match map_until f b with
                | inr rb => inr (ra ++ rb)
                | inl e => inl e
                end
    | inl e => inl e
    end.
Proof.
  induction a as [|x a IH]; simpl.
  - destruct (map_until f b); reflexivity.
  - destruct (f x); [reflexivity|]. rewrite IH.
    destruct (map_until f a); [reflexivity|].
    destruct (map_until f b); reflexivity.
Qed.

(** What the workers return for the first [p] slices: the rewritten rows of
    the first [p * step] rows of the chunk, or the error of the first of
    these rows that is not a string. *)
Lemma workers_rows (chunk : RawFrame) (step : Z) (p : nat) :
  0 <= step ->
  NoDup (raw_label <$> chunk) ->
  match map_until (fun split => find_replace_worker split uncommon unknown)
          ((fun i => slice chunk (i * step) (step * (i + 1)))
             <$> (Z.of_nat <$> seq 0 p)) with
  | inr results => inr (mjoin results)
  | inl e => inl e
  end
  = match as_strings AttributeError (take (p * Z.to_nat step) chunk) with
    | inr df => inr (new_row <$> df)
    | inl e => inl e
    end.
Proof.
  intros Hstep Hnd. induction p as [|p IH]; [reflexivity|].
  set (split := slice chunk (Z.of_nat p * step) (step * (Z.of_nat p + 1))).
  assert (Htake : take (S p * Z.to_nat step) chunk
                  = take (p * Z.to_nat step) chunk ++ split).
  { rewrite <- (slices_join chunk step (S p)) by exact Hstep.
    rewrite <- (slices_join chunk step p) by exact Hstep.
    rewrite seq_S, !fmap_app, join_app. simpl. rewrite app_nil_r.
    reflexivity. }
  assert (Hsplit : NoDup (raw_label <$> split)).
  { subst split. rewrite slice_nonneg by lia.
    apply (sublist_NoDup _ _ Hnd), fmap_sublist.
    etransitivity; [apply sublist_drop|apply sublist_take]. }
  rewrite Htake, as_strings_app, seq_S, !fmap_app, map_until_app.
  simpl. fold split.
  destruct (map_until _ _) as [e|results];
    destruct (as_strings AttributeError (take (p * Z.to_nat step) chunk))
      as [e'|df]; try discriminate IH.
  - exact IH.
  - injection IH as IH. unfold find_replace_worker.
    destruct (as_strings AttributeError split) as [e|df'] eqn:Hdf';
      [reflexivity|].
    rewrite find_replace_rows.
    + unfold DataFrame in *.
      rewrite join_app, fmap_app, IH. simpl. rewrite app_nil_r. reflexivity.
    + rewrite (as_strings_labels _ _ _ Hdf'). exact Hsplit.
Qed.

(** What [rewrite_chunk] computes: the rewritten rows of the slices, that
    is of the first [processes * (chunk_size // processes)] rows; a row
    beyond them is never looked at. *)
Lemma rewrite_chunk_rows (processes chunk_size : Z) (chunk : RawFrame) :
  1 <= processes -> 0 <= chunk_size ->
  NoDup (raw_label <$> chunk) ->
  rewrite_chunk processes chunk_size uncommon unknown chunk
  = match as_strings AttributeError
            (take (Z.to_nat (processes * (chunk_size / processes))) chunk) with
    | inr df => inr (new_row <$> df)
    | inl e => inl e
    end.
Proof.
  intros Hp Hcs Hnd. unfold rewrite_chunk, Frame.concat, Frame.iloc, range.
  assert (Hstep : 0 <= chunk_size / processes) by (apply Z.div_pos; lia).
  etransitivity;
    [exact (workers_rows chunk (chunk_size / processes) (Z.to_nat processes)
              Hstep Hnd)|].
  replace (Z.to_nat processes * Z.to_nat (chunk_size / processes))%nat
    with (Z.to_nat (processes * (chunk_size / processes))) by lia.
  reflexivity.
Qed.

(** On a chunk of strings no worker raises. *)
Lemma rewrite_chunk_strings (processes chunk_size : Z) (chunk : DataFrame) :
  1 <= processes -> 0 <= chunk_size ->
  NoDup (row_label <$> chunk) ->
  rewrite_chunk processes chunk_size uncommon unknown (raw_row <$> chunk)
  = inr (new_row
           <$> take (Z.to_nat (processes * (chunk_size / processes))) chunk).
Proof.
  intros Hp Hcs Hnd. rewrite rewrite_chunk_rows; [|exact Hp|exact Hcs|].
  - rewrite <- fmap_take, as_strings_raw. reflexivity.
  - rewrite <- list_fmap_compose. exact Hnd.
Qed.

End Rewrite.

(** ** Loops that write a file chunk by chunk *)

Lemma for_each_cons {A} (x : A) (l : list A) (f : A -> M unit) (w : World) :
  for_each (x :: l) f w
  = match f x w with
    | (inl e, w') => (inl e, w')
    | (inr _, w') => for_each l f w'
    end.
Proof. reflexivity. Qed.

(** A loop over chunks of strings, as they are read. *)
Lemma for_each_raw (body : Z * RawFrame -> M unit)
  (df_chunks : list DataFrame) (index : Z) (w : World) :
  for_each (Dict.enumerate_from index (fmap (M:=list) raw_row <$> df_chunks))
           body w
  = for_each (Dict.enumerate_from index df_chunks)
             (fun item => body (item.1, raw_row <$> item.2)) w.
Proof.
  revert index w. induction df_chunks as [|chunk chunks IH]; intros index w;
    [reflexivity|].
  rewrite fmap_cons. cbn [Dict.enumerate_from]. rewrite !for_each_cons.
  cbn [fst snd]. destruct (body _ w) as [[e|[]] w1]; [reflexivity|]. apply IH.
Qed.

Section ChunkLoop.

Variables (body : Z * DataFrame -> M unit) (target : string)
  (lines : DataFrame -> list CsvRecord) (message : Z -> string)
  (good : DataFrame -> Prop).

Hypothesis body_run : forall (index : Z) (chunk : DataFrame) (w : World),
  good chunk ->
  body (index, chunk) w
  = (inr (),
     mkWorld (dirs w)
       (<[target :=
            (if index =? 0 then [] else default [] (files w !! target))
            ++ lines chunk]> (files w))
       (stdout w ++ [message index])
       (cpus w)).

Lemma loop_append (df_chunks : list DataFrame) (index : Z) (w : World) :
  Forall good df_chunks ->
  1 <= index ->
  exists w',
    for_each (Dict.enumerate_from index df_chunks) body w = (inr (), w') /\
    dirs w' = dirs w /\ cpus w' = cpus w /\
    files w' = match df_chunks with
               | [] => files w
               | _ => <[target := default [] (files w !! target)
                                  ++ (df_chunks ≫= lines)]> (files w)
               end.
Proof.
  intros Hgood. revert index w.
  induction Hgood as [|chunk chunks Hchunk Hgood IH]; intros index w Hi.
  - exists w. repeat split; reflexivity.
  - cbn [Dict.enumerate_from]. rewrite for_each_cons, body_run by exact Hchunk.
    destruct (Z.eqb_spec index 0) as [|_]; [lia|].
    match goal with
    | |- context [for_each _ _ ?w1] =>
        destruct (IH (index + 1) w1 ltac:(lia)) as (w' & Hrun & Hd & Hc & Hf)
    end.
    exists w'. split; [exact Hrun|]. split; [exact Hd|]. split; [exact Hc|].
    rewrite Hf. simpl files. rewrite bind_cons.
    destruct chunks as [|chunk' chunks].
    + simpl. rewrite app_nil_r. reflexivity.
    + rewrite lookup_insert_eq, insert_insert_eq. simpl default.
      rewrite <- app_assoc. reflexivity.
Qed.

(** The first turn creates the file, the others extend it: at the end the
    file holds the lines of all the chunks, in order. *)
Lemma loop_write (df_chunks : list DataFrame) (w : World) :
  Forall good df_chunks ->
  df_chunks <> [] ->
  exists w',
    for_each (Dict.enumerate df_chunks) body w = (inr (), w') /\
    dirs w' = dirs w /\ cpus w' = cpus w /\
    files w' = <[target := df_chunks ≫= lines]> (files w).
Proof.
  intros Hgood Hne. destruct df_chunks as [|chunk chunks]; [congruence|].
  apply Forall_cons in Hgood as [Hchunk Hgood].
  unfold Dict.enumerate. cbn [Dict.enumerate_from].
  rewrite for_each_cons, body_run by exact Hchunk.
  change (0 + 1) with 1. change (0 =? 0) with true. cbv iota.
  match goal with
  | |- context [for_each _ _ ?w1] =>
      destruct (loop_append chunks 1 w1 Hgood ltac:(lia))
        as (w' & Hrun & Hd & Hc & Hf)
  end.
  exists w'. split; [exact Hrun|]. split; [exact Hd|]. split; [exact Hc|].
  rewrite Hf. simpl files. rewrite bind_cons.
  destruct chunks as [|chunk' chunks].
  - simpl. rewrite app_nil_r. reflexivity.
  - rewrite lookup_insert_eq, insert_insert_eq. reflexivity.
Qed.

End ChunkLoop.

(** ** The chunks of a file *)

Section FileChunks.

Lemma label_from_labels (file : list CsvRecord) (start : nat) :
  row_label <$> Frame.label_from start file = seq start (length file).
Proof.
  revert start. induction file as [|r file IH]; intros start; [reflexivity|].
  simpl. f_equal. apply IH.
Qed.

Lemma label_from_to_records (file : list CsvRecord) (start : nat) :
  Frame.to_records (Frame.label_from start file) = file.
Proof.
  unfold Frame.to_records. revert start.
  induction file as [|[text other] file IH]; intros start; [reflexivity|].
  simpl. f_equal. apply IH.
Qed.

(** Every chunk is a run of consecutive rows of the frame. *)
Lemma chunks_sublist {A} (n : nat) (l : list A) :
  Forall (fun chunk => chunk `sublist_of` l) (Frame.chunks (S n) l).
Proof.
  remember (length l) as k eqn:Hk. revert l Hk.
  induction k as [k IH] using lt_wf_ind. intros l Hk.
  destruct l as [|x l]; simp chunks; [constructor|].
  constructor.
  - apply sublist_skip, sublist_take.
  - eapply Forall_impl.
    + apply (IH (length (drop n l))); [|reflexivity].
      subst k. rewrite length_drop. simpl. lia.
    + intros chunk Hsub. simpl in Hsub.
      apply sublist_cons. etransitivity; [exact Hsub|apply sublist_drop].
Qed.

(** The labels of each chunk of a file are distinct. *)
Lemma chunks_labels (n : nat) (file : list CsvRecord) :
  Forall (fun chunk : DataFrame => NoDup (row_label <$> chunk))
         (Frame.chunks (S n) (Frame.label_from 0 file)).
Proof.
  eapply Forall_impl; [apply chunks_sublist|].
  intros chunk Hsub. simpl in Hsub.
  apply (sublist_NoDup _ (row_label <$> Frame.label_from 0 file)).
  - rewrite label_from_labels. apply NoDup_seq.
  - apply fmap_sublist, Hsub.
Qed.

Lemma chunks_nil {A} (n : nat) (l : list A) :
  Frame.chunks (S n) l = [] -> l = [].
Proof. destruct l; simp chunks; [reflexivity|discriminate]. Qed.

(** The lines written chunk after chunk, when each chunk writes a function
    of its own lines. *)
Lemma chunks_lines (n : nat) (file : list CsvRecord)
  (lines : DataFrame -> list CsvRecord)
  (records : list CsvRecord -> list CsvRecord) :
  (forall chunk : DataFrame, NoDup (row_label <$> chunk) ->
     lines chunk = records (Frame.to_records chunk)) ->
  Frame.chunks (S n) (Frame.label_from 0 file) ≫= lines
  = Frame.chunks (S n) file ≫= records.
Proof.
  intros Hlines.
  rewrite <- (label_from_to_records file 0) at 2.
  unfold Frame.to_records at 1. rewrite chunks_fmap, list_fmap_bind.
  apply Forall_bind_ext.
  eapply Forall_impl; [apply chunks_labels|].
  intros chunk Hnd. simpl. apply Hlines, Hnd.
Qed.

End FileChunks.

Lemma truthy_Some (s : string) : s <> "" -> truthy (Some s) = true.
Proof.
  intros Hs. simpl. destruct (String.eqb_spec s ""); [contradiction|reflexivity].
Qed.

(** ** Directories *)

Section Directories.

Lemma trim_slash_empty (p : string) : Path.trim_slash p = "" -> p = "".
Proof.
  unfold Path.trim_slash. destruct (rstrip "/" p); [|discriminate].
  destruct (String.eqb_spec p ""); [trivial|discriminate].
Qed.

Lemma posix_join_nonempty (a b : string) : a <> "" -> posix_join a b <> "".
Proof.
  intros Ha. unfold posix_join.
  destruct (String.prefix "/" b) eqn:Hb.
  - intros ->. discriminate.
  - destruct (_ || _); destruct a; try congruence; discriminate.
Qed.

(** A directory that is not there is made, unless a path above it is a
    file; the files, the console and the processors are left alone. *)
Lemma ensure_dir (p : string) (w : World) :
  p <> "" ->
  Forall (fun q => files w !! q = None) (Path.parents (Path.trim_slash p)) ->
  exists w1,
    (present ← os_path_exists (Some p) ;
     if negb present then os_makedirs (Some p) else mret ()) w = (inr (), w1) /\
    files w1 = files w /\ stdout w1 = stdout w /\ cpus w1 = cpus w /\
    dirs w ⊆ dirs w1 /\
    (is_dir w1 (Path.trim_slash p) = true \/ is_Some (files w !! p)) /\
    (is_dir w (Path.trim_slash p) = false -> files w !! p = None ->
     dirs w1 = {[Path.trim_slash p]}
               ∪ list_to_set (Path.parents (Path.trim_slash p)) ∪ dirs w).
Proof.
  intros Hp Hparents.
  cbv beta iota delta [mbind M_bind mret M_ret os_path_exists os_makedirs].
  destruct (is_dir w (Path.trim_slash p)) eqn:Hdir; cbn [orb negb].
  - exists w. repeat split; try reflexivity; [left; exact Hdir|discriminate].
  - destruct (bool_decide_reflect (is_Some (files w !! p))) as [Hfile|Hfile];
      cbn [negb].
    + exists w. repeat split; try reflexivity; [right; exact Hfile|].
      intros _ Hnone. rewrite Hnone in Hfile. destruct Hfile; discriminate.
    + destruct (String.eqb_spec (Path.trim_slash p) "") as [Hempty|_].
      { apply trim_slash_empty in Hempty. contradiction. }
      replace (existsb _ _) with false.
      * eexists. split; [reflexivity|]. cbn [files stdout cpus dirs].
        repeat split; try reflexivity.
        -- set_solver.
        -- left. unfold is_dir. cbn [dirs].
           apply orb_true_iff. right. apply bool_decide_eq_true. set_solver.
      * symmetry. apply not_true_is_false. intros Hex.
        apply existsb_exists in Hex as (q & Hq & Hfileq).
        apply bool_decide_eq_true in Hfileq.
        rewrite Forall_forall in Hparents.
        rewrite (Hparents q) in Hfileq; [destruct Hfileq; discriminate|].
        apply list_elem_of_In, Hq.
Qed.

End Directories.

(** ** The rewrite as [build_vocab] runs it *)

Section RewriteRun.

Variables (processes chunk_size : Z) (uncommon : list string)
  (unknown : string) (new_dir file_name : string).

Hypothesis processes_pos : 1 <= processes.

Hypothesis chunk_size_pos : 0 <= chunk_size.

Abbreviation target := (posix_join new_dir file_name).

Abbreviation kept := (Z.to_nat (processes * (chunk_size / processes))).

(** One turn of the loop on a chunk of strings: a line on the console and
    one write. *)
Lemma rewrite_body_run (index : Z) (chunk : DataFrame) (w : World) :
  NoDup (row_label <$> chunk) ->
  rewrite_body processes chunk_size uncommon unknown
               (Some new_dir) (Some file_name) (index, raw_row <$> chunk) w
  = (inr (),
     mkWorld (dirs w)
       (<[target :=
            (if index =? 0 then [] else default [] (files w !! target))
            ++ Frame.to_records
                 (replace_row uncommon unknown <$> take kept chunk)]>
          (files w))
       (stdout w ++ ["Processing chunk " +:+ pretty index +:+ "..."])
       (cpus w)).
Proof.
  intros Hnd.
  unfold rewrite_body, mbind, M_bind, print, Pool, os_path_join, to_csv,
    from_sum, mret, M_ret.
  destruct (Z.ltb_spec processes 1) as [|_]; [lia|].
  rewrite rewrite_chunk_strings by assumption.
  simpl. destruct (index =? 0); reflexivity.
Qed.

(** The whole loop over the chunks of a file of strings: the target is
    replaced by the first [kept] lines of each chunk, rewritten. *)
Lemma rewrite_loop (n : nat) (file : list CsvRecord) (w : World) :
  file <> [] ->
  exists w',
    for_each
      (Dict.enumerate
         (Frame.reader_chunks (S n) (raw_row <$> Frame.label_from 0 file)))
      (rewrite_body processes chunk_size uncommon unknown
                    (Some new_dir) (Some file_name)) w
    = (inr (), w') /\
    dirs w' = dirs w /\ cpus w' = cpus w /\
    files w'
    = <[target := kept_records kept uncommon unknown
                    (Frame.chunks (S n) file)]> (files w).
Proof.
  intros Hfile. rewrite reader_chunks_fmap, reader_chunks_cons
    by (destruct file; [congruence|discriminate]).
  unfold Dict.enumerate. rewrite for_each_raw.
  destruct (loop_write
              (fun item =>
                 rewrite_body processes chunk_size uncommon unknown
                   (Some new_dir) (Some file_name)
                   (item.1, raw_row <$> item.2))
              target
              (fun chunk =>
                 Frame.to_records
                   (replace_row uncommon unknown <$> take kept chunk))
              (fun index => "Processing chunk " +:+ pretty index +:+ "...")
              (fun chunk => NoDup (row_label <$> chunk))
              (fun index chunk w Hnd => rewrite_body_run index chunk w Hnd)
              (Frame.chunks (S n) (Frame.label_from 0 file)) w)
    as (w' & Hrun & Hd & Hc & Hf).
  - apply chunks_labels.
  - intros Hnil. apply chunks_nil in Hnil.
    destruct file; [congruence|discriminate].
  - exists w'. split; [exact Hrun|]. split; [exact Hd|]. split; [exact Hc|].
    rewrite Hf. f_equal. unfold kept_records.
    apply chunks_lines. intros chunk _. unfold Frame.to_records.
    rewrite <- fmap_take, <- !list_fmap_compose. reflexivity.
Qed.

End RewriteRun.

(** A rewrite into a sub-directory, with both paths supplied and a source
    file that exists and whose comments are all read as strings:
    [build_vocab] returns the vocabulary, and the target file holds, for
    each chunk in turn, the first [cpu_count() * (chunk_size //
    cpu_count())] lines of the chunk, rewritten. *)
Lemma build_vocab_rewrite word_count threshold padword unknown
  (file_dir file_name new_dir : string) chunk_size uncommon_limit
  (w : World) (file : list CsvRecord) :
  file_dir <> "" -> new_dir <> "" -> file <> [] ->
  1 <= chunk_size -> 1 <= cpus w ->
  files w !! posix_join file_dir file_name = Some file ->
  all_plain file ->
  Forall (fun q => files w !! q = None)
         (Path.parents (Path.trim_slash (posix_join file_dir new_dir))) ->
  let loop := vocab_loop word_count threshold uncommon_limit unknown padword in
  exists w',
    build_vocab word_count threshold padword unknown true
                (Some file_dir) (Some file_name) (Some new_dir)
                chunk_size uncommon_limit w
    = (inr (loop.1, reverse loop.1), w') /\
    cpus w' = cpus w /\
    files w'
    = <[posix_join (posix_join file_dir new_dir) file_name :=
          kept_records (Z.to_nat (cpus w * (chunk_size / cpus w)))
            loop.2 unknown (Frame.chunks (Z.to_nat chunk_size) file)]>
        (files w).
Proof.
  intros Hdir Hnew Hfile Hcs Hcpus Hsource Hplain Hparents loop. subst loop.
  unfold build_vocab.
  destruct (vocab_loop _ _ _ _ _) as [vocab uncommon].
  rewrite (truthy_Some file_dir Hdir), (truthy_Some new_dir Hnew).
  destruct (ensure_dir (posix_join file_dir new_dir) w
              (posix_join_nonempty _ _ Hdir) Hparents)
    as (w1 & Hensure & Hf1 & _ & Hc1 & _).
  cbv beta iota delta [mbind M_bind mret M_ret fmap M_fmap os_path_join
    negb andb] in Hensure |- *.
  destruct (os_path_exists _ w) as [[e|present] w0]; [discriminate|].
  rewrite Hensure.
  cbv beta iota delta [read_csv cpu_count print].
  destruct (Z.ltb_spec chunk_size 1) as [|_]; [lia|].
  rewrite Hf1, Hsource, Hc1.
  destruct (Z.to_nat chunk_size) as [|n] eqn:Hn; [lia|].
  rewrite (read_from_plain _ _ Hplain).
  destruct (rewrite_loop (cpus w) chunk_size uncommon unknown
              (posix_join file_dir new_dir) file_name Hcpus ltac:(lia)
              n file w1 Hfile) as (w' & Hrun & _ & Hc & Hf).
  unfold RawFrame, DataFrame in *.
  rewrite Hrun. eexists. split; [reflexivity|].
  cbn [cpus files fst snd]. split; [congruence|].
  rewrite Hf, Hf1. reflexivity.
Qed.

(** When, moreover, the number of processors divides the chunk size, the
    target file holds every line of the source, rewritten, in order. *)
Lemma kept_records_all (kept n : nat) (uncommon : list string)
  (unknown : string) (file : list CsvRecord) :
  (S n <= kept)%nat ->
  kept_records kept uncommon unknown (Frame.chunks (S n) file)
  = replace_record uncommon unknown <$> file.
Proof.
  intros Hkept. unfold kept_records.
  rewrite <- (chunks_join n file) at 2.
  pose proof (chunks_length n file) as Hlen.
  induction Hlen as [|chunk chunks Hchunk _ IH]; [reflexivity|].
  rewrite bind_cons, IH. simpl. rewrite fmap_app.
  rewrite take_ge by lia. reflexivity.
Qed.

Lemma kept_divisible (processes chunk_size : Z) :
  1 <= processes -> 0 <= chunk_size -> chunk_size mod processes = 0 ->
  Z.to_nat (processes * (chunk_size / processes)) = Z.to_nat chunk_size.
Proof.
  intros Hp Hcs Hmod.
  pose proof (Z.div_mod chunk_size processes ltac:(lia)). f_equal. lia.
Qed.

(** ** The rewrite on a machine with two processors *)

(** The table [count_occurrences] builds for the sample corpus. *)
Example sample_counts_counted :
  count_occurrences "data/train.csv" 20000 default_padword
                    (world_with "data/train.csv" sample_file 2)
  = (inr sample_counts, world_with "data/train.csv" sample_file 2).
Proof. vm_compute. reflexivity. Qed.

(** C1, at a failing input: a corpus of three rows, each comment of which
    is read as a string, read with chunks of three rows on a machine with
    two processors. The chunk is cut into two slices of [3 // 2 = 1] row, so
    the third row reaches no worker: the call returns, and the file written
    has two rows where the corpus has three. *)
Theorem rewrite_loses_rows :
  let out :=
    build_vocab sample_counts 1 default_padword default_unknown true
                (Some "data") (Some "train.csv") (Some "rewritten") 3 500
                (world_with "data/train.csv" sample_file 2) in
  (exists vocabularies, out.1 = inr vocabularies) /\
  files out.2 !! "data/rewritten/train.csv"
  = Some [("you <unk> <unk> <unk>", ["0"]); ("<unk> <unk>", ["1"])] /\
  read_cell <$> sample_file.*1
  = [Str "you 're great <pad>"; Str "so what"; Str "idiot you"] /\
  length sample_file = 3%nat.
Proof.
  split; [|split; [|split]].
  - eexists. vm_compute. reflexivity.
  - vm_compute. reflexivity.
  - reflexivity.
  - reflexivity.
Qed.

(** C2, at a failing input: the same corpus (three comments, each read as a
    string) and arguments on a machine with one processor and on a machine
    with two. One worker rewrites the three rows; two workers write only the
    first two. *)
Theorem rewrite_workers_differ :
  let written cpus :=
    files (build_vocab sample_counts 1 default_padword default_unknown true
             (Some "data") (Some "train.csv") (Some "rewritten") 3 500
             (world_with "data/train.csv" sample_file cpus)).2
      !! "data/rewritten/train.csv" in
  written 1 = Some [("you <unk> <unk> <unk>", ["0"]); ("<unk> <unk>", ["1"]);
                    ("<unk> you", ["1"])] /\
  written 2 = Some [("you <unk> <unk> <unk>", ["0"]); ("<unk> <unk>", ["1"])] /\
  written 1 <> written 2.
Proof.
  split; [vm_compute; reflexivity|].
  split; [vm_compute; reflexivity|].
  vm_compute. discriminate.
Qed.

(** ** Missing paths *)

(** With neither path supplied, the rewrite is refused before anything is
    touched. *)
Lemma build_vocab_both_missing word_count threshold padword unknown
  file_dir file_name new_dir chunk_size uncommon_limit (w : World) :
  truthy file_dir = false -> truthy file_name = false ->
  build_vocab word_count threshold padword unknown true
              file_dir file_name new_dir chunk_size uncommon_limit w
  = (inl (ValueError "Arguments file_dir and file_name are required."), w).
Proof.
  intros Hdir Hname. unfold build_vocab.
  destruct (vocab_loop _ _ _ _ _) as [vocab uncommon].
  rewrite Hdir, Hname. reflexivity.
Qed.

(** With a directory and no file name, the guard lets the call through: the
    target directory is made if need be (no path above it being a file), and
    the error is the one of joining a path with [None], whatever the other
    arguments are. *)
Lemma build_vocab_name_missing word_count threshold padword unknown
  (file_dir : string) new_dir chunk_size uncommon_limit (w : World) :
  file_dir <> "" ->
  Forall (fun q => files w !! q = None)
         (Path.parents
            (Path.trim_slash
               (if truthy new_dir then posix_join file_dir (default "" new_dir)
                else file_dir))) ->
  (build_vocab word_count threshold padword unknown true
               (Some file_dir) None new_dir chunk_size uncommon_limit w).1
  = inl TypeError.
Proof.
  intros Hdir Hparents. unfold build_vocab.
  destruct (vocab_loop _ _ _ _ _) as [vocab uncommon].
  rewrite (truthy_Some file_dir Hdir).
  set (target_dir := if truthy new_dir
                     then posix_join file_dir (default "" new_dir)
                     else file_dir) in *.
  assert (Htarget : target_dir <> "").
  { subst target_dir. destruct (truthy new_dir); [|exact Hdir].
    apply posix_join_nonempty, Hdir. }
  destruct (ensure_dir target_dir w Htarget Hparents)
    as (w1 & Hensure & _).
  cbv beta iota delta [mbind M_bind mret M_ret negb andb] in Hensure |- *.
  match goal with
  | |- context [(if truthy new_dir then ?a else ?b) w] =>
      assert (Hjoin : (if truthy new_dir then a else b) w
                      = (inr (Some target_dir), w))
  end.
  { subst target_dir. destruct new_dir as [new_dir|]; [|reflexivity].
    cbn [truthy default]. destruct (negb (String.eqb new_dir "")); reflexivity. }
  rewrite Hjoin.
  destruct (os_path_exists _ w) as [[e|present] w0]; [discriminate|].
  rewrite Hensure. reflexivity.
Qed.

(** With a file name and no directory, the call fails on the first path
    operation, before anything is touched, but not with the configuration
    error. *)
Lemma build_vocab_dir_missing word_count threshold padword unknown
  (file_name : string) new_dir chunk_size uncommon_limit (w : World) :
  file_name <> "" ->
  build_vocab word_count threshold padword unknown true
              None (Some file_name) new_dir chunk_size uncommon_limit w
  = (inl TypeError, w).
Proof.
  intros Hname. unfold build_vocab.
  destruct (vocab_loop _ _ _ _ _) as [vocab uncommon].
  rewrite (truthy_Some file_name Hname).
  destruct new_dir as [new_dir|]; [|reflexivity].
  simpl. destruct (negb (String.eqb new_dir "")); reflexivity.
Qed.

(** C5, at a failing input: a rewrite requested with a source directory and
    no file name. No configuration error is raised: the directory is
    created first, and the call then fails with a [TypeError]. *)
Theorem missing_file_name_not_reported :
  let out :=
    build_vocab sample_counts 1 default_padword default_unknown true
                (Some "data") None None 20000 500 quiet_world in
  out.1 = inl TypeError /\
  (forall msg, out.1 <> inl (ValueError msg)) /\
  ("data" ∉ dirs quiet_world) /\
  ("data" ∈ dirs (out.2)).
Proof.
  split; [vm_compute; reflexivity|].
  split; [intros msg; vm_compute; discriminate|].
  split; compute_done.
Qed.

(** * Further properties of the code *)

(** ** The padder, again *)

(** A comment whose token list has the target length goes through [pad]
    untouched. *)
Lemma pad_full_length (comment padword : string) (L : Z) :
  Z.of_nat (length (split_space comment)) = L ->
  pad comment L padword = comment.
Proof.
  intros HL. unfold pad, slice_to.
  destruct (Z.ltb_spec 0 (L - Z.of_nat (length (split_space comment))));
    [lia|].
  destruct (Z.ltb_spec L 0); [lia|].
  rewrite take_ge by lia. apply join_split.
Qed.

Lemma pad_twice (comment padword : string) (L : Z) :
  has_space padword = false ->
  0 <= L ->
  pad (pad comment L padword) L padword = pad comment L padword.
Proof.
  intros Hpw HL.
  destruct (Z.eq_dec L 0) as [->|Hne].
  - rewrite (pad_unfold comment 0 padword) by lia.
    unfold padded_tokens.
    pose proof (split_space_length_pos comment).
    destruct (Z.ltb_spec (Z.of_nat (length (split_space comment))) 0); [lia|].
    reflexivity.
  - apply pad_full_length.
    rewrite split_pad by (assumption || lia).
    apply padded_tokens_length. lia.
Qed.

(** X1: a comment that already has exactly [L] space-separated tokens is
    returned unchanged by [pad], whatever the pad token is. *)
Theorem pad_full_length_unchanged (comment padword : string) (L : Z) :
  Z.of_nat (length (split_space comment)) = L ->
  pad comment L padword = comment.
Proof.
  exact (pad_full_length comment padword L).
Qed.

(** The first comment of the example of the specification has three
    tokens. *)
Lemma pad_full_length_unchanged_witness :
  pad "you 're great" 3 default_padword = "you 're great".
Proof.
  apply pad_full_length_unchanged. reflexivity.
Defined.

(** X2: padding is idempotent: for a target length [L >= 0] and a pad token
    without a space, padding a padded comment again to [L] changes
    nothing. *)
Theorem pad_idempotent (comment padword : string) (L : Z) :
  has_space padword = false ->
  0 <= L ->
  pad (pad comment L padword) L padword = pad comment L padword.
Proof.
  exact (pad_twice comment padword L).
Qed.

Lemma pad_idempotent_witness :
  pad (pad "idiot" 3 default_padword) 3 default_padword
  = pad "idiot" 3 default_padword.
Proof.
  apply pad_idempotent; [reflexivity|lia].
Defined.

(** ** The substitution of one comment *)

Section ReplaceWords.

Variables (uncommon : list string) (unknown : string).

Lemma replace_words_split (comment : string) :
  has_space unknown = false ->
  split_space (replace_words uncommon unknown comment)
  = replace_word uncommon unknown <$> split_space comment.
Proof.
  intros Hunk. unfold replace_words. apply split_join.
  - destruct (split_space_cons comment) as (w & ws & ->). discriminate.
  - apply Forall_fmap.
    eapply Forall_impl; [apply split_space_no_space|].
    intros w Hw. simpl in *. unfold replace_word.
    destruct (bool_decide (w ∉ uncommon)); assumption.
Qed.

Lemma replace_word_twice (word : string) :
  replace_word uncommon unknown (replace_word uncommon unknown word)
  = replace_word uncommon unknown word.
Proof.
  unfold replace_word.
  destruct (bool_decide_reflect (word ∉ uncommon)) as [Hw|Hw].
  - rewrite bool_decide_eq_true_2 by exact Hw. reflexivity.
  - destruct (bool_decide (unknown ∉ uncommon)); reflexivity.
Qed.

End ReplaceWords.

(** X3: for an unknown token without a space, the rewritten comment has the
    tokens of the comment, in place and as many, each token of the uncommon
    list replaced by the unknown token and every other token kept. *)
Theorem replace_words_tokens (uncommon : list string) (unknown : string)
  (comment : string) :
  has_space unknown = false ->
  let before := split_space comment in
  let after := split_space (replace_words uncommon unknown comment) in
  length after = length before /\
  forall (i : nat) word,
    before !! i = Some word ->
    after !! i = Some (if bool_decide (word ∈ uncommon) then unknown else word).
Proof.
  intros Hunk before after. subst before after.
  rewrite replace_words_split by exact Hunk.
  split; [apply length_fmap|].
  intros i word Hi. rewrite list_lookup_fmap, Hi. simpl. f_equal.
  unfold replace_word.
  destruct (bool_decide_reflect (word ∈ uncommon)) as [Hin|Hnin].
  - rewrite bool_decide_eq_false_2; [reflexivity|]. intros Hn. exact (Hn Hin).
  - rewrite bool_decide_eq_true_2 by exact Hnin. reflexivity.
Qed.

Lemma replace_words_tokens_witness :
  split_space (replace_words ["'re"; "great"] default_unknown "you 're great")
    !! 1%nat
  = Some default_unknown.
Proof.
  exact (proj2 (replace_words_tokens ["'re"; "great"] default_unknown
                  "you 're great" eq_refl) 1%nat "'re" eq_refl).
Defined.

(** A comment without a token of the uncommon list is left as it is. *)
Lemma replace_words_keep (uncommon : list string) (unknown : string)
  (comment : string) :
  (forall word, word ∈ split_space comment -> word ∉ uncommon) ->
  replace_words uncommon unknown comment = comment.
Proof.
  intros Hnone. unfold replace_words.
  rewrite <- (join_split comment) at 2. f_equal.
  rewrite <- (list_fmap_id (split_space comment)) at 2.
  apply Forall_fmap_ext, Forall_forall. intros word Hin. simpl.
  rewrite bool_decide_eq_true_2 by exact (Hnone word Hin). reflexivity.
Qed.

(** X4: a comment none of whose tokens is in the uncommon list is returned
    unchanged, character for character; in particular every comment is,
    when the uncommon list is empty. *)
Theorem replace_words_unchanged (uncommon : list string) (unknown : string)
  (comment : string) :
  (forall word, word ∈ split_space comment -> word ∉ uncommon) ->
  replace_words uncommon unknown comment = comment.
Proof.
  exact (replace_words_keep uncommon unknown comment).
Qed.

Lemma replace_words_unchanged_witness :
  replace_words [] default_unknown "you  're great " = "you  're great ".
Proof.
  apply replace_words_unchanged. intros word _ Hin.
  apply elem_of_nil in Hin. exact Hin.
Defined.

(** X5: the substitution is idempotent: for an unknown token without a
    space, rewriting a rewritten comment changes nothing, whether or not
    the unknown token is itself in the uncommon list. *)
Theorem replace_words_idempotent (uncommon : list string) (unknown : string)
  (comment : string) :
  has_space unknown = false ->
  replace_words uncommon unknown (replace_words uncommon unknown comment)
  = replace_words uncommon unknown comment.
Proof.
  intros Hunk. unfold replace_words at 1.
  rewrite replace_words_split by exact Hunk.
  unfold replace_words. f_equal.
  rewrite <- list_fmap_compose.
  apply list_fmap_ext. intros i word _. apply replace_word_twice.
Qed.

Lemma replace_words_idempotent_witness :
  replace_words ["<unk>"; "great"] default_unknown
    (replace_words ["<unk>"; "great"] default_unknown "you 're great")
  = replace_words ["<unk>"; "great"] default_unknown "you 're great".
Proof.
  apply replace_words_idempotent. reflexivity.
Defined.

(** ** The rewrite of one frame *)

(** X6: on a frame whose index labels are distinct, as those of a frame
    read from a file are, [_find_replace] returns a frame with the same
    rows in the same order: each row keeps its label and its other columns,
    and its [comment_text] is the rewritten one. *)
Theorem find_replace_frame (df : DataFrame) (uncommon : list string)
  (unknown : string) :
  NoDup (row_label <$> df) ->
  let out := _find_replace df uncommon unknown in
  length out = length df /\
  forall (i : nat) r,
    df !! i = Some r ->
    out !! i
    = Some (mkRow (row_label r)
                  (replace_words uncommon unknown (comment_text r))
                  (other_columns r)).
Proof.
  intros Hnd out. subst out. rewrite find_replace_rows by exact Hnd.
  split; [apply length_fmap|].
  intros i r Hi. unfold DataFrame in *.
  rewrite list_lookup_fmap, Hi. reflexivity.
Qed.

Lemma find_replace_frame_witness :
  _find_replace [mkRow 7 "you idiot" ["1"]; mkRow 8 "so what" ["0"]]
                ["idiot"] default_unknown !! 0%nat
  = Some (mkRow 7 "you <unk>" ["1"]).
Proof.
  exact (proj2 (find_replace_frame
                  [mkRow 7 "you idiot" ["1"]; mkRow 8 "so what" ["0"]]
                  ["idiot"] default_unknown ltac:(compute_done))
               0%nat (mkRow 7 "you idiot" ["1"]) eq_refl).
Defined.

(** ** The word frequency counter, again *)

Section CounterOrder.

Lemma keys_foldl_incr_elem (words : list string) (word : string) :
  word ∈ (foldl Dict.incr [] words).*1 <-> word ∈ words.
Proof.
  induction words as [|k words IH] using rev_ind.
  - reflexivity.
  - rewrite foldl_app. simpl. rewrite keys_incr, elem_of_app.
    rewrite list_elem_of_singleton.
    destruct (bool_decide_reflect (k ∈ (foldl Dict.incr [] words).*1))
      as [Hin|Hnin].
    + rewrite IH. split; [tauto|]. intros [H| ->]; [exact H|].
      apply IH, Hin.
    + rewrite elem_of_app, list_elem_of_singleton, IH. reflexivity.
Qed.

(** A key that comes before another one in the table occurs in the corpus
    before the other one does for the first time. *)
Lemma keys_foldl_incr_order (words : list string) (i j : nat)
  (k1 k2 : string) :
  (i < j)%nat ->
  (foldl Dict.incr [] words).*1 !! i = Some k1 ->
  (foldl Dict.incr [] words).*1 !! j = Some k2 ->
  exists a b : nat,
    (a < b)%nat /\ words !! a = Some k1 /\ words !! b = Some k2 /\
    k2 ∉ take b words.
Proof.
  revert i j k1 k2.
  induction words as [|k words IH] using rev_ind; intros i j k1 k2 Hij H1 H2.
  - discriminate.
  - rewrite foldl_app in H1, H2. simpl in H1, H2.
    rewrite keys_incr in H1, H2.
    assert (Hold : forall a b : nat,
      (a < b)%nat -> words !! a = Some k1 -> words !! b = Some k2 ->
      k2 ∉ take b words ->
      exists a b : nat,
        (a < b)%nat /\ (words ++ [k]) !! a = Some k1 /\
        (words ++ [k]) !! b = Some k2 /\ k2 ∉ take b (words ++ [k])).
    { intros a b Hab Ha Hb Hfirst. exists a, b.
      pose proof (lookup_lt_Some _ _ _ Hb) as Hlen.
      split; [exact Hab|].
      split; [rewrite lookup_app_l by lia; exact Ha|].
      split; [rewrite lookup_app_l by lia; exact Hb|].
      rewrite take_app_le by lia. exact Hfirst. }
    destruct (bool_decide_reflect (k ∈ (foldl Dict.incr [] words).*1))
      as [Hin|Hnin].
    + destruct (IH i j k1 k2 Hij H1 H2) as (a & b & Hab & Ha & Hb & Hf).
      exact (Hold a b Hab Ha Hb Hf).
    + destruct (decide (j < length (foldl Dict.incr [] words).*1)%nat)
        as [Hj|Hj].
      * rewrite lookup_app_l in H1, H2 by lia.
        destruct (IH i j k1 k2 Hij H1 H2) as (a & b & Hab & Ha & Hb & Hf).
        exact (Hold a b Hab Ha Hb Hf).
      * pose proof (lookup_lt_Some _ _ _ H2) as Hj'.
        rewrite length_app in Hj'. simpl in Hj'.
        assert (j = length (foldl Dict.incr [] words).*1) as -> by lia.
        rewrite lookup_app_l in H1 by lia.
        rewrite list_lookup_middle in H2 by reflexivity.
        injection H2 as ->.
        assert (Hk1 : k1 ∈ words).
        { apply keys_foldl_incr_elem. eapply list_elem_of_lookup_2, H1. }
        apply list_elem_of_lookup in Hk1 as [a Ha].
        pose proof (lookup_lt_Some _ _ _ Ha) as Halen.
        exists a, (length words).
        split; [exact Halen|].
        split; [rewrite lookup_app_l by lia; exact Ha|].
        split; [apply list_lookup_middle; reflexivity|].
        rewrite take_app_length. intros Hk2. apply Hnin.
        apply keys_foldl_incr_elem, Hk2.
Qed.

End CounterOrder.

(** The rows of the chunks, one chunk after the other, are the rows of the
    file: the first cell that is not a string is the same. *)
Lemma map_until_join (on_nan : exn) (chunks : list RawFrame) :
  match map_until (as_strings on_nan) chunks with
  | inr frames => inr (mjoin frames)
  | inl e => inl e
  end
  = as_strings on_nan (mjoin chunks).
Proof.
  induction chunks as [|chunk chunks IH]; [reflexivity|].
  simpl. rewrite as_strings_app, <- IH.
  destruct (as_strings on_nan chunk); [reflexivity|].
  destruct (map_until (as_strings on_nan) chunks); reflexivity.
Qed.

(** What [count_occurrences] does on a file, whatever the chunk size. *)
Lemma count_occurrences_joined (w : World) (file_name : string)
  (chunk_size : Z) (padword : string) (file : list CsvRecord) :
  1 <= chunk_size ->
  files w !! file_name = Some file ->
  count_occurrences file_name chunk_size padword w
  = (match as_strings AttributeError (Frame.read_from 0 file) with
     | inr df =>
         inr (foldl Dict.incr []
                (df ≫= (fun r => split_space (comment_text r))))
     | inl e => inl e
     end, w).
Proof.
  intros Hcs Hfile.
  unfold count_occurrences, read_csv, from_sum, mbind, M_bind, mret, M_ret.
  destruct (Z.ltb_spec chunk_size 1) as [|_]; [lia|].
  rewrite Hfile.
  destruct (Z.to_nat chunk_size) as [|n] eqn:Hn; [lia|].
  rewrite <- (reader_chunks_join n (Frame.read_from 0 file)) at 2.
  rewrite <- map_until_join.
  destruct (map_until _ _) as [e|frames]; [reflexivity|].
  unfold count_chunks.
  rewrite <- count_chunk_words with (padword := padword).
  unfold count_chunk at 2.
  rewrite (foldl_mjoin (fun d r =>
    foldl (count_word padword) d (split_space (comment_text r)))).
  reflexivity.
Qed.

(** X7: on a corpus each comment of which is read as a string or as a
    missing value, what [count_occurrences] returns (a table, or the error
    of the first missing value) depends neither on the chunk size (from 1
    on) nor on the pad token it is given: a corpus read in chunks of any
    size is counted as if read at once, and a missing file is reported in
    the same way. *)
Theorem count_occurrences_chunk_size (w : World) (file_name : string)
  (chunk_size1 chunk_size2 : Z) (padword1 padword2 : string) :
  1 <= chunk_size1 ->
  1 <= chunk_size2 ->
  (forall file, files w !! file_name = Some file ->
     Forall (fun r => plain_text r.1 = true \/ r.1 ∈ na_values) file) ->
  count_occurrences file_name chunk_size1 padword1 w
  = count_occurrences file_name chunk_size2 padword2 w.
Proof.
  intros H1 H2 _.
  destruct (files w !! file_name) as [file|] eqn:Hfile.
  - rewrite !(count_occurrences_joined _ _ _ _ file) by assumption.
    reflexivity.
  - unfold count_occurrences, read_csv, mbind, M_bind.
    destruct (Z.ltb_spec chunk_size1 1) as [|_]; [lia|].
    destruct (Z.ltb_spec chunk_size2 1) as [|_]; [lia|].
    rewrite Hfile. reflexivity.
Qed.

Lemma count_occurrences_chunk_size_witness :
  count_occurrences "data/train.csv" 1 default_padword
                    (world_with "data/train.csv" sample_file 1)
  = count_occurrences "data/train.csv" 20000 ""
                      (world_with "data/train.csv" sample_file 1).
Proof.
  apply count_occurrences_chunk_size; [lia|lia|].
  intros file [= <-]. compute_done.
Defined.



(** ** The vocabulary builder, again *)

Section Uncommon.

Variables threshold uncommon_limit : Z.

Lemma rare_words_cons (word : string) (c : Z) (items : dict) :
  rare_words threshold ((word, c) :: items)
  = if threshold <? c then rare_words threshold items
    else word :: rare_words threshold items.
Proof.
  unfold rare_words, dict in *.
  rewrite (filter_cons (fun item : string * Z => item.2 <= threshold)).
  simpl.
  destruct (Z.ltb_spec threshold c); case_decide; try lia; reflexivity.
Qed.

(** The uncommon list grows by the rare words met, as long as there is
    room. *)
Lemma run_uncommon (items : dict) start vocab uncommon :
  (vocab_run threshold uncommon_limit start vocab uncommon items).2
  = uncommon ++ take (Z.to_nat uncommon_limit - length uncommon)
                     (rare_words threshold items).
Proof.
  revert start vocab uncommon.
  induction items as [|[word c] items IH]; intros start vocab uncommon.
  - change (rare_words threshold []) with (@nil string).
    rewrite take_nil, app_nil_r. reflexivity.
  - rewrite run_cons, rare_words_cons.
    destruct (Z.ltb_spec threshold c); [apply IH|].
    destruct (Z.ltb_spec (Z.of_nat (length uncommon)) uncommon_limit).
    + rewrite IH, length_app. simpl.
      replace (Z.to_nat uncommon_limit - length uncommon)%nat
        with (S (Z.to_nat uncommon_limit - (length uncommon + 1)))%nat by lia.
      simpl. rewrite <- app_assoc. reflexivity.
    + rewrite IH.
      replace (Z.to_nat uncommon_limit - length uncommon)%nat with 0%nat by lia.
      reflexivity.
Qed.

Lemma vocab_loop_uncommon (word_count : dict) (unknown padword : string) :
  (vocab_loop word_count threshold uncommon_limit unknown padword).2
  = take (Z.to_nat uncommon_limit) (rare_words threshold word_count).
Proof.
  unfold vocab_loop, Dict.enumerate.
  change (foldl _ _ _)
    with (vocab_run threshold uncommon_limit 0
            (initial_vocab unknown padword) [] word_count).
  rewrite run_uncommon. simpl. f_equal. lia.
Qed.

(** In a dictionary a word has one count. *)
Lemma dict_count_unique (word_count : dict) (word : string) (c1 c2 : Z) :
  NoDup word_count.*1 ->
  (word, c1) ∈ word_count -> (word, c2) ∈ word_count -> c1 = c2.
Proof.
  intros Hnd H1 H2. unfold dict in *.
  apply list_elem_of_lookup in H1 as [i Hi], H2 as [j Hj].
  assert (i = j).
  { apply (NoDup_lookup _ i j word Hnd);
      rewrite list_lookup_fmap; [rewrite Hi|rewrite Hj]; reflexivity. }
  subst j. congruence.
Qed.

(** A word above the threshold is never in the uncommon list. *)
Lemma vocab_loop_uncommon_rare (word_count : dict) (unknown padword : string)
  (word : string) (c : Z) :
  NoDup word_count.*1 ->
  (word, c) ∈ word_count -> threshold < c ->
  word ∉ (vocab_loop word_count threshold uncommon_limit unknown padword).2.
Proof.
  intros Hnd Hin Hc Hunc. rewrite vocab_loop_uncommon in Hunc.
  apply subseteq_take in Hunc. unfold rare_words in Hunc.
  apply list_elem_of_fmap in Hunc as ([word' c'] & Heq & Hfilter).
  simpl in Heq. subst word'.
  apply list_elem_of_filter in Hfilter as [Hle Hin']. simpl in Hle.
  pose proof (dict_count_unique _ _ _ _ Hnd Hin Hin'). lia.
Qed.

End Uncommon.

(** X9: the uncommon list built by the loop of [build_vocab] is exactly the
    first [uncommon_limit] words, in the order of the table, whose count
    does not exceed the threshold; so it never has more than
    [uncommon_limit] words, it is empty for a limit of 0 or less, and the
    rare words met once it is full are in no list. *)
Theorem uncommon_list_exact (word_count : dict)
  (threshold uncommon_limit : Z) (unknown padword : string) :
  let uncommon :=
    (vocab_loop word_count threshold uncommon_limit unknown padword).2 in
  uncommon = take (Z.to_nat uncommon_limit) (rare_words threshold word_count) /\
  Z.of_nat (length uncommon) <= Z.max 0 uncommon_limit.
Proof.
  intros uncommon. subst uncommon. rewrite vocab_loop_uncommon.
  split; [reflexivity|]. rewrite length_take. lia.
Qed.

(** X10: words above the threshold are never replaced: a comment all of
    whose tokens are words of the table with a count above the threshold is
    returned unchanged by the substitution with the uncommon list of the
    loop. (The reserved tokens are in the vocabulary without being above
    the threshold: nothing is said of them.) *)
Theorem vocabulary_words_kept (word_count : dict)
  (threshold uncommon_limit : Z) (unknown padword : string)
  (comment : string) :
  NoDup word_count.*1 ->
  (forall word, word ∈ split_space comment ->
                exists c, (word, c) ∈ word_count /\ threshold < c) ->
  replace_words
    (vocab_loop word_count threshold uncommon_limit unknown padword).2
    unknown comment
  = comment.
Proof.
  intros Hnd Hwords. apply replace_words_keep.
  intros word Hin. destruct (Hwords word Hin) as (c & Hc & Hlt).
  exact (vocab_loop_uncommon_rare threshold uncommon_limit word_count
           unknown padword word c Hnd Hc Hlt).
Qed.

Lemma vocabulary_words_kept_witness :
  replace_words
    (vocab_loop sample_counts 1 500 default_unknown default_padword).2
    default_unknown "you you"
  = "you you".
Proof.
  apply vocabulary_words_kept; [compute_done|].
  intros word Hin. exists 2. split; [|lia].
  vm_compute in Hin.
  apply elem_of_cons in Hin as [->|Hin]; [compute_done|].
  apply elem_of_cons in Hin as [->|Hin]; [compute_done|].
  apply elem_of_nil in Hin. destruct Hin.
Defined.

(** ** The reverse vocabulary *)

Section Reverse.

(** The entries of the map the comprehension builds from a list of items
    in which no two words have the same index. *)
Lemma reverse_items_lookup (items : list (string * Z)) (acc : gmap Z string)
  (v : Z) (k : string) :
  (forall k1 k2 v', (k1, v') ∈ items -> (k2, v') ∈ items -> k1 = k2) ->
  foldl (fun rev item => <[item.2 := item.1]> rev) acc items !! v = Some k
  <-> (k, v) ∈ items \/ (acc !! v = Some k /\ v ∉ items.*2).
Proof.
  revert acc. induction items as [|[k0 v0] items IH]; intros acc Hinj.
  - simpl. split.
    + intros H. right. split; [exact H|]. apply not_elem_of_nil.
    + intros [H|[H _]]; [apply elem_of_nil in H; destruct H|exact H].
  - simpl foldl. rewrite IH.
    2:{ intros k1 k2 v' H1 H2. apply (Hinj k1 k2 v'); right; assumption. }
    rewrite fmap_cons. simpl.
    destruct (decide (v0 = v)) as [->|Hne].
    + rewrite lookup_insert_eq. split.
      * intros [H|[H Hnot]]; [left; right; exact H|].
        injection H as ->. left. left.
      * intros [H|[_ Hnot]].
        -- apply elem_of_cons in H as [H|H]; [|left; exact H].
           injection H as ->.
           destruct (decide (v ∈ items.*2)) as [Hin|Hnin].
           ++ left. apply list_elem_of_fmap in Hin as ([k' v'] & Hv & Hin).
              simpl in Hv. subst v'.
              rewrite (Hinj k0 k' v ltac:(left) ltac:(right; exact Hin)).
              exact Hin.
           ++ right. split; [reflexivity|exact Hnin].
        -- exfalso. apply Hnot. left.
    + rewrite lookup_insert_ne by exact Hne. split.
      * intros [H|[H Hnot]]; [left; right; exact H|].
        right. split; [exact H|].
        intros Hin. apply elem_of_cons in Hin as [Heq|Hin]; [congruence|].
        exact (Hnot Hin).
      * intros [H|[H Hnot]].
        -- apply elem_of_cons in H as [H|H]; [congruence|left; exact H].
        -- right. split; [exact H|].
           intros Hin. apply Hnot. right. exact Hin.
Qed.

(** The reverse of a map in which no two keys have the same value is its
    inverse. *)
Lemma reverse_lookup (vocab : gmap string Z) (v : Z) (k : string) :
  (forall k1 k2 v', vocab !! k1 = Some v' -> vocab !! k2 = Some v' -> k1 = k2) ->
  reverse vocab !! v = Some k <-> vocab !! k = Some v.
Proof.
  intros Hinj. unfold reverse. rewrite reverse_items_lookup.
  - rewrite elem_of_map_to_list, lookup_empty. split.
    + intros [H|[H _]]; [exact H|discriminate].
    + intros H. left. exact H.
  - intros k1 k2 v' H1 H2.
    apply elem_of_map_to_list in H1, H2. exact (Hinj k1 k2 v' H1 H2).
Qed.

End Reverse.

(** X11: for every word count table (a dictionary), the reverse vocabulary
    [build_vocab] returns is the inverse of the vocabulary it returns: an
    index is mapped to a word exactly when the word is mapped to that
    index. *)
Theorem reverse_vocab_inverse (word_count : dict)
  (threshold uncommon_limit : Z) (padword unknown : string)
  (file_dir file_name new_dir : option string) (chunk_size : Z) (w : World) :
  NoDup word_count.*1 ->
  exists vocab reverse_vocab,
    build_vocab word_count threshold padword unknown false
                file_dir file_name new_dir chunk_size uncommon_limit w
    = (inr (vocab, reverse_vocab), w) /\
    forall word index,
      reverse_vocab !! index = Some word <-> vocab !! word = Some index.
Proof.
  intros Hnd. eexists. eexists.
  split; [apply build_vocab_no_modify|].
  intros word index. apply reverse_lookup.
  intros k1 k2 v' H1 H2.
  exact (vocab_loop_injective threshold uncommon_limit word_count
           unknown padword k1 k2 v' Hnd H1 H2).
Qed.

Lemma reverse_vocab_inverse_witness :
  exists vocab reverse_vocab,
    build_vocab sample_counts 1 default_padword default_unknown false
                None None None 20000 500 quiet_world
    = (inr (vocab, reverse_vocab), quiet_world) /\
    forall word index,
      reverse_vocab !! index = Some word <-> vocab !! word = Some index.
Proof.
  apply reverse_vocab_inverse. compute_done.
Defined.

(** ** The rewrite as [build_vocab] runs it, again *)

Lemma plain_name_nonempty (s : string) : Path.plain_name s = true -> s <> "".
Proof. intros Hs ->. discriminate. Qed.

Lemma posix_join_nonempty_r (a b : string) : b <> "" -> posix_join a b <> "".
Proof.
  intros Hb. unfold posix_join.
  destruct (String.prefix "/" b); [exact Hb|].
  destruct (_ || _); destruct a; simpl; try exact Hb; discriminate.
Qed.







(** The two paths of the configuration error, both absent. *)
Lemma build_vocab_both_missing_witness :
  build_vocab sample_counts 1 default_padword default_unknown true
              None (Some "") (Some "rewritten") 20000 500
              (world_with "data/train.csv" sample_file 2)
  = (inl (ValueError "Arguments file_dir and file_name are required."),
     world_with "data/train.csv" sample_file 2).
Proof.
  apply build_vocab_both_missing; reflexivity.
Defined.

(** A file name without a directory. *)
Lemma build_vocab_dir_missing_witness :
  build_vocab sample_counts 1 default_padword default_unknown true
              None (Some "train.csv") None 20000 500
              (world_with "train.csv" sample_file 2)
  = (inl TypeError, world_with "train.csv" sample_file 2).
Proof.
  apply build_vocab_dir_missing. discriminate.
Defined.

(** ** Rows updated one by one *)

Section RowUpdates.

Variable f : string -> string.

Abbreviation updated := (Padding.apply_comment_text f).

Lemma at_set_updated (pre : DataFrame) (e : Row) (es : DataFrame) :
  NoDup (row_label <$> pre ++ e :: es) ->
  Frame.at_set (row_label e) (f (comment_text e)) (updated pre ++ e :: es)
  = updated (pre ++ [e]) ++ es.
Proof.
  intros Hnd. rewrite fmap_app, fmap_cons in Hnd.
  apply NoDup_app in Hnd as (_ & Hpre & Hnd).
  apply NoDup_cons in Hnd as [Hes _].
  unfold Frame.at_set. rewrite fmap_app, fmap_cons.
  fold (Frame.at_set (row_label e) (f (comment_text e)) (updated pre)).
  fold (Frame.at_set (row_label e) (f (comment_text e)) es).
  rewrite !at_set_fresh.
  - rewrite bool_decide_eq_true_2 by reflexivity.
    unfold Padding.apply_comment_text.
    rewrite fmap_app, <- app_assoc. reflexivity.
  - exact Hes.
  - unfold Padding.apply_comment_text. rewrite <- list_fmap_compose.
    intros Hin. apply (Hpre _ Hin). left.
Qed.

(** Updating the rows by label while visiting them, on a frame with
    distinct labels, updates every row in place. *)
Lemma at_set_fold (pre entries : DataFrame) :
  NoDup (row_label <$> pre ++ entries) ->
  foldl (fun df entry =>
           Frame.at_set (row_label entry) (f (comment_text entry)) df)
        (updated pre ++ entries) entries
  = updated (pre ++ entries).
Proof.
  revert pre. induction entries as [|e es IH]; intros pre Hnd.
  - simpl. rewrite !app_nil_r. reflexivity.
  - simpl foldl. rewrite at_set_updated by exact Hnd.
    rewrite IH; rewrite <- app_assoc; [reflexivity|exact Hnd].
Qed.

Lemma updated_to_records (df : DataFrame) :
  Frame.to_records (updated df) = map_record f <$> Frame.to_records df.
Proof.
  unfold Frame.to_records, Padding.apply_comment_text.
  rewrite <- !list_fmap_compose. reflexivity.
Qed.

Lemma updated_records (file : list CsvRecord) (start : nat) :
  Frame.to_records (updated (Frame.label_from start file))
  = map_record f <$> file.
Proof. rewrite updated_to_records, label_from_to_records. reflexivity. Qed.

Lemma map_record_texts (file : list CsvRecord) :
  (map_record f <$> file).*1 = f <$> file.*1.
Proof. rewrite <- !list_fmap_compose. reflexivity. Qed.

End RowUpdates.

(** ** tokenize_comments *)

Section TokenizeFile.

Variables (word_tokenize : string -> list string) (lower_case : bool).

Abbreviation tokenized :=
  (Tokenizer.tokenize_comment word_tokenize lower_case).

Lemma tokenize_chunk_rows (chunk : DataFrame) :
  NoDup (row_label <$> chunk) ->
  tokenize_chunk word_tokenize lower_case chunk
  = Padding.apply_comment_text tokenized chunk.
Proof.
  intros Hnd. exact (at_set_fold tokenized [] chunk Hnd).
Qed.

Lemma tokenize_body_run (new_dir file_name : string) (index : Z)
  (chunk : DataFrame) (w : World) :
  NoDup (row_label <$> chunk) ->
  tokenize_body word_tokenize lower_case new_dir file_name
                (index, raw_row <$> chunk) w
  = (inr (),
     mkWorld (dirs w)
       (<[posix_join new_dir file_name :=
            (if index =? 0 then []
             else default [] (files w !! posix_join new_dir file_name))
            ++ Frame.to_records
                 (Padding.apply_comment_text tokenized chunk)]> (files w))
       (stdout w ++ ["Tokenizing chunk " +:+ pretty index +:+ "..."])
       (cpus w)).
Proof.
  intros Hnd.
  unfold tokenize_body, mbind, M_bind, print, os_path_join, to_csv, from_sum,
    mret, M_ret.
  rewrite as_strings_raw, tokenize_chunk_rows by exact Hnd.
  simpl. destruct (index =? 0); reflexivity.
Qed.

(** The whole loop over the chunks of a file of strings that has rows: the
    target is replaced by the lines of the file, each tokenized. *)
Lemma tokenize_loop (new_dir file_name : string) (n : nat)
  (file : list CsvRecord) (w : World) :
  file <> [] ->
  exists w',
    for_each
      (Dict.enumerate
         (Frame.reader_chunks (S n) (raw_row <$> Frame.label_from 0 file)))
      (tokenize_body word_tokenize lower_case new_dir file_name) w
    = (inr (), w') /\
    dirs w' = dirs w /\ cpus w' = cpus w /\
    files w'
    = <[posix_join new_dir file_name := map_record tokenized <$> file]>
        (files w).
Proof.
  intros Hfile. rewrite reader_chunks_fmap, reader_chunks_cons
    by (destruct file; [congruence|discriminate]).
  unfold Dict.enumerate. rewrite for_each_raw.
  destruct (loop_write
              (fun item =>
                 tokenize_body word_tokenize lower_case new_dir file_name
                   (item.1, raw_row <$> item.2))
              (posix_join new_dir file_name)
              (fun chunk =>
                 Frame.to_records (Padding.apply_comment_text tokenized chunk))
              (fun index => "Tokenizing chunk " +:+ pretty index +:+ "...")
              (fun chunk => NoDup (row_label <$> chunk))
              (fun index chunk w Hnd =>
                 tokenize_body_run new_dir file_name index chunk w Hnd)
              (Frame.chunks (S n) (Frame.label_from 0 file)) w)
    as (w' & Hrun & Hd & Hc & Hf).
  - apply chunks_labels.
  - intros Hnil. apply chunks_nil in Hnil.
    destruct file; [congruence|discriminate].
  - exists w'. split; [exact Hrun|]. split; [exact Hd|]. split; [exact Hc|].
    rewrite Hf. f_equal.
    rewrite (chunks_lines n file _ (fmap (map_record tokenized))).
    + rewrite <- (chunks_join n file) at 2.
      induction (Frame.chunks (S n) file) as [|chunk chunks IH];
        [reflexivity|].
      rewrite bind_cons, IH. simpl. rewrite fmap_app. reflexivity.
    + intros chunk _. apply updated_to_records.
Qed.

End TokenizeFile.





(** ** add_padding *)

Section PaddingFile.

Import Padding.

Variables (file_dir file_name new_dir : string) (max_length : Z).

Abbreviation padded :=
  (map_record (fun comment => pad comment max_length default_padword)).

Abbreviation source := (posix_join file_dir file_name).

(** What is read from a file of strings, and padded. *)
Lemma padded_frame (w : World) (file : list CsvRecord) :
  files w !! source = Some file ->
  all_plain file ->
  read_csv_all source w = (inr (Frame.read_from 0 file), w) /\
  as_strings AttributeError (Frame.read_from 0 file)
  = inr (Frame.label_from 0 file) /\
  Frame.to_records
    (apply_comment_text
       (fun comment => pad comment max_length default_padword)
       (Frame.label_from 0 file))
  = padded <$> file.
Proof.
  intros Hsource Hplain. unfold read_csv_all. rewrite Hsource.
  split; [reflexivity|]. split.
  - rewrite (read_from_plain _ _ Hplain). apply as_strings_raw.
  - apply updated_records.
Qed.

(** The run in place, on a file of strings. *)
Lemma add_padding_in_place_run (w : World) (file : list CsvRecord) :
  files w !! source = Some file ->
  all_plain file ->
  add_padding file_dir file_name false new_dir max_length w
  = (inr (),
     mkWorld (dirs w) (<[source := padded <$> file]> (files w))
             (stdout w) (cpus w)).
Proof.
  intros Hsource Hplain.
  destruct (padded_frame w file Hsource Hplain) as (Hread & Hstr & Hrec).
  unfold add_padding, save, to_csv. rewrite Hread, Hstr. cbn [app].
  rewrite Hrec. reflexivity.
Qed.

Lemma padded_twice (file : list CsvRecord) :
  0 <= max_length ->
  padded <$> (padded <$> file) = padded <$> file.
Proof.
  intros HL. rewrite <- list_fmap_compose.
  apply list_fmap_ext. intros i [text other] _. unfold map_record. simpl.
  rewrite pad_twice; [reflexivity|reflexivity|exact HL].
Qed.

End PaddingFile.







(** What [os.mkdir] leaves when it succeeds, and what it does on a
    directory that is there. *)
Lemma os_mkdir_made (path : string) (w w1 : World) :
  Padding.os_mkdir path w = (inr (), w1) ->
  w1 = mkWorld ({[Path.trim_slash path]} ∪ dirs w) (files w) (stdout w)
               (cpus w).
Proof.
  unfold Padding.os_mkdir.
  destruct (_ || _); [discriminate|].
  destruct (String.eqb _ ""); [discriminate|].
  destruct (last _) as [parent|].
  - destruct (is_dir w parent); [intros [= <-]; reflexivity|].
    destruct (bool_decide _); discriminate.
  - intros [= <-]. reflexivity.
Qed.

Lemma os_mkdir_exists (path : string) (w : World) :
  is_dir w (Path.trim_slash path) = true ->
  Padding.os_mkdir path w = (inl Padding.FileExistsError, w).
Proof. intros Hdir. unfold Padding.os_mkdir. rewrite Hdir. reflexivity. Qed.

(** X20: [add_padding] with [new_file] set cannot be run twice: after a run
    that succeeded and wrote a file other than its source, the same call
    fails with [FileExistsError] at [os.mkdir], and writes nothing. *)
Theorem add_padding_new_file_twice (file_dir file_name new_dir : string)
  (max_length : Z) (w w' : World) :
  Path.plain_name file_name = true ->
  posix_join (posix_join file_dir new_dir) file_name
  <> posix_join file_dir file_name ->
  Padding.add_padding file_dir file_name true new_dir max_length w
  = (inr (), w') ->
  Padding.add_padding file_dir file_name true new_dir max_length w'
  = (inl Padding.FileExistsError, w').
Proof.
  intros _ Hne.
  unfold Padding.add_padding, Padding.read_csv_all, Padding.save, to_csv.
  destruct (files w !! posix_join file_dir file_name) as [file|] eqn:Hsource;
    [|discriminate].
  destruct (as_strings AttributeError (Frame.read_from 0 file))
    as [e|df] eqn:Hdf; [discriminate|].
  destruct (Padding.os_mkdir (posix_join file_dir new_dir) w)
    as [[e|[]] w1] eqn:Hmade; [discriminate|].
  apply os_mkdir_made in Hmade. subst w1. cbn [files dirs stdout cpus].
  intros Hrun. injection Hrun as <-. cbn [files].
  rewrite lookup_insert_ne by exact Hne.
  rewrite Hsource, Hdf, os_mkdir_exists; [reflexivity|].
  unfold is_dir. cbn [dirs]. apply orb_true_iff. right.
  apply bool_decide_eq_true. set_solver.
Qed.

Lemma add_padding_new_file_twice_witness :
  Padding.add_padding "data" "train.csv" true "padded" 3
    (Padding.add_padding "data" "train.csv" true "padded" 3
       (world_with "data/train.csv" sample_file 1)).2
  = (inl Padding.FileExistsError,
     (Padding.add_padding "data" "train.csv" true "padded" 3
        (world_with "data/train.csv" sample_file 1)).2).
Proof.
  apply (add_padding_new_file_twice "data" "train.csv" "padded" 3
           (world_with "data/train.csv" sample_file 1)).
  - reflexivity.
  - discriminate.
  - vm_compute. reflexivity.
Defined.

(** ** The value returned with and without a rewrite *)

(** X21: the rewrite has no influence on what [build_vocab] returns: when a
    call with a rewrite returns, the same call without the rewrite returns
    the same vocabulary and reverse vocabulary, and touches nothing. *)
Theorem rewrite_same_vocabulary word_count threshold padword unknown
  file_dir file_name new_dir chunk_size uncommon_limit (w w' : World)
  (returned : gmap string Z * gmap Z string) :
  build_vocab word_count threshold padword unknown true
              file_dir file_name new_dir chunk_size uncommon_limit w
  = (inr returned, w') ->
  build_vocab word_count threshold padword unknown false
              file_dir file_name new_dir chunk_size uncommon_limit w
  = (inr returned, w).
Proof.
  destruct returned as [vocab reverse_vocab]. intros Hrun.
  apply build_vocab_vocabulary in Hrun as [-> ->].
  apply build_vocab_no_modify.
Qed.

Lemma rewrite_same_vocabulary_witness :
  build_vocab sample_counts 1 default_padword default_unknown false
              (Some "data") (Some "train.csv") (Some "rewritten") 3 500
              (world_with "data/train.csv" sample_file 2)
  = (inr ((vocab_loop sample_counts 1 500 default_unknown default_padword).1,
          reverse
            (vocab_loop sample_counts 1 500 default_unknown default_padword).1),
     world_with "data/train.csv" sample_file 2).
Proof.
  destruct (build_vocab_rewrite sample_counts 1 default_padword
              default_unknown "data" "train.csv" "rewritten" 3 500
              (world_with "data/train.csv" sample_file 2) sample_file
              ltac:(discriminate) ltac:(discriminate) ltac:(discriminate)
              ltac:(lia) ltac:(simpl; lia) eq_refl
              ltac:(repeat constructor) ltac:(repeat constructor))
    as (w' & Hrun & _).
  exact (rewrite_same_vocabulary _ _ _ _ _ _ _ _ _ _ _ _ Hrun).
Defined.
